(** * pointlessly: the reactive runtime of [lib/pointlessly.ts]

    A shallow embedding of the signal cell ([signalFactory]), the component
    container ([$]) with its hook tools, and the three structural
    primitives ([$bind], [$if], [$for]), together with the prop comparison
    of [util/general.ts].

    Conventions.
    - A JavaScript object is known by its reference.  [createId()] draws are
      modelled as successive numbers, and the [id] of a component doubles as
      its reference: [a !== b] on components is inequality of ids.
    - A closure is a record of its captured variables; the closure variables
      of one component instance form the state of the monad [M].
    - A method call on a child component, a user callback and a document
      operation leave the embedded code: each is recorded, in program
      order, in the [trace] of the instance.
    - User code (render functions, tracked callbacks) is a term of [Code]:
      it may read signals, create objects and call the hook tools.  The
      experimental [$effect] tool is not part of [Code]; it is modelled in
      [Effects].  Callbacks that themselves call [$bind], [$if] or [$for]
      are terms of [Nested.Code].
    - A prop object inherits from [Object.prototype]: a read of a key it
      does not own finds the built-in member of that name, if there is
      one. *)

From stdpp Require Import gmap strings list fin_maps.
From Stdlib Require Import ZArith Lia.

(** ** JavaScript values *)

(** Primitives carry their contents; objects, arrays and functions are
    references ([VRef]).  Numbers are integers here.  [VBuiltin key] is the
    built-in object that [Object.prototype] holds under [key] (the function
    [Object] under [constructor], [Object.prototype.toString] under
    [toString], ..., and [Object.prototype] itself under [__proto__]). *)
Inductive Value : Type :=
| VUndefined
| VNull
| VBool (b : bool)
| VNumber (n : Z)
| VString (s : string)
| VRef (r : nat)
| VBuiltin (key : string).

#[global] Instance Value_eq_dec : EqDecision Value.
Proof. solve_decision. Defined.

(** [Object.is]: same primitive, or same reference. *)
Definition Object_is (a b : Value) : bool := bool_decide (a = b).

(** A prop object: own enumerable string keys and their values.  It is made
    by an object literal, so its prototype is [Object.prototype]. *)
Abbreviation Props := (gmap string Value).

(** The keys of [Object.prototype]. *)
Definition Object_prototype : list string :=
  [ "constructor"%string; "hasOwnProperty"%string; "isPrototypeOf"%string;
    "propertyIsEnumerable"%string; "toLocaleString"%string; "toString"%string;
    "valueOf"%string; "__proto__"%string; "__defineGetter__"%string;
    "__defineSetter__"%string; "__lookupGetter__"%string; "__lookupSetter__"%string ].

(** What a read of [key] finds on the prototype chain of an object that has
    no own property [key]. *)
Definition inherited (key : string) : Value :=
  if bool_decide (key ∈ Object_prototype) then VBuiltin key else VUndefined.

(** ** util/general.ts *)

Module General.

(** [a[key]]: an own property, or else what the prototype has under [key];
    a key found nowhere reads as [undefined]. *)
Definition get (a : Props) (key : string) : Value :=
  match a !! key with
  | Some v => v
  | None => inherited key
  end.

(** [Object.keys(a)].  Only the length and the members are used below, so
    the enumeration order is immaterial. *)
Definition Object_keys (a : Props) : list string := (map_to_list a).*1.

Definition isSameProps (a b : Props) : bool :=
  let aKeys := Object_keys a in
  let bKeys := Object_keys b in
  if negb (length aKeys =? length bKeys) then false
  else forallb (λ key, Object_is (get a key) (get b key)) aKeys.

(** [b[index]] on an array: out of range reads as [undefined]. *)
Definition at_index (b : list Value) (index : nat) : Value := default VUndefined (b !! index).

Definition isSameDependencies (a b : list Value) : bool :=
  if negb (length a =? length b) then false
  else forallb id (imap (λ index value, Object_is value (at_index b index)) a).

End General.

(** ** JavaScript [Set]

    The entries of a [Set] in insertion order.  [delete] empties an entry in
    place, so that an iteration in progress keeps its position; [add] of a
    present value does nothing, of a new one appends. *)

Module JSSet.
Section JSSet.
Context {A : Type} `{EqDecision A}.

Definition has (x : A) (s : list (option A)) : bool := bool_decide (Some x ∈ s).

Definition add (x : A) (s : list (option A)) : list (option A) :=
  if has x s then s else s ++ [Some x].

Definition delete (x : A) (s : list (option A)) : list (option A) :=
  (λ e, if decide (e = Some x) then None else e) <$> s.

(** The values a fresh iteration visits. *)
Definition values (s : list (option A)) : list A := omap id s.

Definition wf (s : list (option A)) : Prop := NoDup (values s).

End JSSet.
End JSSet.

(** ** signalFactory *)

(** A listener is a closure, known by its reference. *)
Inductive Listener : Type := Fn (closure : nat).

#[global] Instance Listener_eq_dec : EqDecision Listener.
Proof. solve_decision. Defined.

Module Signal.

(** An entry of [context.unsubscribers]: the closure
    [() => listeners.delete(listener)] made by a read of the signal at
    [target]. *)
Record Unsubscriber : Type := mkUnsubscriber { target : nat; listener : Listener }.

Record SignalContext : Type := mkSignalContext {
  currentListener : option Listener;
  unsubscribers : list Unsubscriber;
}.

(** The variables captured by the closures of one signal: [value] and the
    [listeners] set.  [context] is shared and passed in. *)
Record Signal : Type := mkSignal {
  value : Value;
  listeners : list (option Listener);
}.

Definition signalFactory (initialValue : Value) : Signal :=
  {| value := initialValue; listeners := [] |}.

(** [subscribe(listener)]: the returned closure deletes the listener again. *)
Definition subscribe (self : nat) (l : Listener) (s : Signal) : Unsubscriber * Signal :=
  (mkUnsubscriber self l, {| value := value s; listeners := JSSet.add l (listeners s) |}).

Definition unsubscribe (l : Listener) (s : Signal) : Signal :=
  {| value := value s; listeners := JSSet.delete l (listeners s) |}.

(** [read()], for the signal stored at reference [self]. *)
Definition read (self : nat) (context : SignalContext) (s : Signal)
  : Value * SignalContext * Signal :=
  match currentListener context with
  | Some listener =>
      (value s,
       {| currentListener := currentListener context;
          unsubscribers := unsubscribers context ++ [mkUnsubscriber self listener] |},
       {| value := value s; listeners := JSSet.add listener (listeners s) |})
  | None => (value s, context, s)
  end.

(** The argument of [write]: a function is an updater, anything else the
    new value. *)
Inductive NewValue : Type :=
| Direct (v : Value)
| Updater (f : Value → Value).

Section Write.
(** [E] is whatever else the listeners can reach.  A listener is handed the
    value and may change the signal itself as well as [E]. *)
Context {E : Type}.
Variable call : Listener → Value → Signal * E → Signal * E.

(** [listeners.forEach((listener) => listener(value))]: the iteration
    follows the live entries, so entries added during the pass are visited
    and emptied ones skipped.  [calls] records each invocation with the
    value passed; the pass may not end, hence [fuel]. *)
Fixpoint forEach (fuel index : nat) (w : Signal * E) (calls : list (Listener * Value))
  : option (Signal * E * list (Listener * Value)) :=
  match fuel with
  | 0 => None
  | S fuel =>
      match listeners w.1 !! index with
      | None => Some (w, calls)
      | Some None => forEach fuel (S index) w calls
      | Some (Some listener) =>
          forEach fuel (S index) (call listener (value w.1) w)
                  (calls ++ [(listener, value w.1)])
      end
  end.

Definition write (fuel : nat) (newValue : NewValue) (w : Signal * E)
  : option (Signal * E * list (Listener * Value)) :=
  let value' := match newValue with
                | Updater f => f (value w.1)
                | Direct v => v
                end in
  forEach fuel 0 ({| value := value'; listeners := listeners w.1 |}, w.2) [].

(** No listener touches the signal it is called from (no re-entrant write,
    no change of its subscriptions). *)
Definition quiet : Prop := ∀ l v w, (call l v w).1 = w.1.

End Write.

(** The calls made to [l] during one pass. *)
Definition calls_to (l : Listener) (calls : list (Listener * Value)) : list (Listener * Value) :=
  filter (λ c, c.1 = l) calls.

End Signal.

(** ** Components *)

(** A [Component] value as the structural code sees it: its reference and
    the fields the duck-typed checks look at.  Only an instance of a [$]
    definition has [props] and [serial]; [props] is the object (if any) the
    instance was created with. *)
Inductive Component : Type :=
| Empty (id : nat)
| Intrinsic (id : nat) (tag : string)
| Custom (id : nat) (props : option Props) (serial : nat)
| Structural (id : nat).

#[global] Instance Component_eq_dec : EqDecision Component.
Proof. solve_decision. Defined.

Definition id_of (c : Component) : nat :=
  match c with
  | Empty id | Intrinsic id _ | Custom id _ _ | Structural id => id
  end.

(** [a === b] on component references. *)
Definition same (a b : Component) : bool := bool_decide (id_of a = id_of b).

Definition props_of (c : Component) : option Props :=
  match c with
  | Custom _ props _ => props
  | _ => None
  end.

Definition serial_of (c : Component) : option nat :=
  match c with
  | Custom _ _ serial => Some serial
  | _ => None
  end.

(** [isObject(value) && hasOwnPropertyType(value, "props", isObject)]. *)
Definition isCustomComponent (c : Component) : bool :=
  match props_of c with
  | Some _ => true
  | None => false
  end.

(** What leaves the embedded code. *)
Inductive Call : Type :=
| Render (c : Component)
| Destroy (c : Component)
| Replace (c newComponent : Component)
| Append (c newComponent : Component)
| Reload (c : Component) (newProps : option Props)
| RenderFn (owner : nat)
| Condition (owner : nat)
| Items (owner : nat)
| RenderItem (owner : nat) (item : Value)
| Renderer (props : option Props)
| RunEffect (body : nat)
| Unmount (cleanup : nat)
| NodeRemove (node : nat)
| NodeReplaceWith (node newNode : nat)
| NodeAppendChild (parent newNode : nat).

#[global] Instance Call_eq_dec : EqDecision Call.
Proof. solve_decision. Defined.

(** ** The scope of one component instance *)

Record PropStore : Type := mkPropStore {
  prev : option Props;
  curr : option Props;
}.

(** An effect passed to [$mount]: calling it runs [body] and hands back
    [cleanup], or nothing. *)
Record Effect : Type := mkEffect {
  body : nat;
  cleanup : option nat;
}.

(** The variables declared by [(props) => { ... }] in [$], then the model's
    bookkeeping: the signal objects by reference, the id supply and the
    trace. *)
Record Instance : Type := mkInstance {
  hasRendered : bool;
  signalIndex : nat;
  signals : gmap nat nat;
  unmounts : list (option nat);
  propStore : PropStore;
  signalCtx : Signal.SignalContext;
  lastRenderResult : option nat;
  heap : gmap nat Signal.Signal;
  nextId : nat;
  trace : list Call;
}.

Definition instantiate (props : option Props) : Instance :=
  {| hasRendered := false;
     signalIndex := 0;
     signals := ∅;
     unmounts := [];
     propStore := {| prev := props; curr := props |};
     signalCtx := {| Signal.currentListener := None; Signal.unsubscribers := [] |};
     lastRenderResult := None;
     heap := ∅;
     nextId := 0;
     trace := [] |}.

Definition M (A : Type) : Type := Instance → A * Instance.

#[global] Instance M_ret : MRet M := λ A a w, (a, w).
#[global] Instance M_bind : MBind M := λ A B f m w, let '(a, w') := m w in f a w'.

Definition get : M Instance := λ w, (w, w).

Definition set_hasRendered (b : bool) : M unit := λ w,
  (tt, mkInstance b (signalIndex w) (signals w) (unmounts w) (propStore w) (signalCtx w)
                  (lastRenderResult w) (heap w) (nextId w) (trace w)).

Definition set_signalIndex (i : nat) : M unit := λ w,
  (tt, mkInstance (hasRendered w) i (signals w) (unmounts w) (propStore w) (signalCtx w)
                  (lastRenderResult w) (heap w) (nextId w) (trace w)).

Definition set_signals (s : gmap nat nat) : M unit := λ w,
  (tt, mkInstance (hasRendered w) (signalIndex w) s (unmounts w) (propStore w) (signalCtx w)
                  (lastRenderResult w) (heap w) (nextId w) (trace w)).

Definition set_unmounts (u : list (option nat)) : M unit := λ w,
  (tt, mkInstance (hasRendered w) (signalIndex w) (signals w) u (propStore w) (signalCtx w)
                  (lastRenderResult w) (heap w) (nextId w) (trace w)).

Definition set_propStore (p : PropStore) : M unit := λ w,
  (tt, mkInstance (hasRendered w) (signalIndex w) (signals w) (unmounts w) p (signalCtx w)
                  (lastRenderResult w) (heap w) (nextId w) (trace w)).

Definition set_signalCtx (c : Signal.SignalContext) : M unit := λ w,
  (tt, mkInstance (hasRendered w) (signalIndex w) (signals w) (unmounts w) (propStore w) c
                  (lastRenderResult w) (heap w) (nextId w) (trace w)).

Definition set_lastRenderResult (n : option nat) : M unit := λ w,
  (tt, mkInstance (hasRendered w) (signalIndex w) (signals w) (unmounts w) (propStore w)
                  (signalCtx w) n (heap w) (nextId w) (trace w)).

Definition set_heap (h : gmap nat Signal.Signal) : M unit := λ w,
  (tt, mkInstance (hasRendered w) (signalIndex w) (signals w) (unmounts w) (propStore w)
                  (signalCtx w) (lastRenderResult w) h (nextId w) (trace w)).

Definition set_nextId (n : nat) : M unit := λ w,
  (tt, mkInstance (hasRendered w) (signalIndex w) (signals w) (unmounts w) (propStore w)
                  (signalCtx w) (lastRenderResult w) (heap w) n (trace w)).

(** Append one call to the trace. *)
Definition record (c : Call) : M unit := λ w,
  (tt, mkInstance (hasRendered w) (signalIndex w) (signals w) (unmounts w) (propStore w)
                  (signalCtx w) (lastRenderResult w) (heap w) (nextId w) (trace w ++ [c])).

Fixpoint forEach {A : Type} (f : A → M unit) (l : list A) : M unit :=
  match l with
  | [] => mret tt
  | x :: l => _ ← f x; forEach f l
  end.

(** [createId()]. *)
Definition createId : M nat :=
  w ← get; _ ← set_nextId (S (nextId w)); mret (nextId w).

(** [c.render()] on a child: the call is recorded; the node it hands back is
    not examined by the caller and is named by a new number. *)
Definition call_render (c : Component) : M nat :=
  _ ← record (Render c); createId.

(** [createEmptyComponent()]: a new placeholder around its own text node. *)
Definition createEmptyComponent : M Component :=
  id ← createId; mret (Empty id).

Definition set_currentListener (l : option Listener) : M unit :=
  w ← get;
  set_signalCtx {| Signal.currentListener := l;
                   Signal.unsubscribers := Signal.unsubscribers (signalCtx w) |}.

Definition set_unsubscribers (u : list Signal.Unsubscriber) : M unit :=
  w ← get;
  set_signalCtx {| Signal.currentListener := Signal.currentListener (signalCtx w);
                   Signal.unsubscribers := u |}.

(** [signal.read()] through a reference; a reference to no signal of this
    instance reads as [undefined]. *)
Definition signal_read (signal : nat) : M Value :=
  w ← get;
  match heap w !! signal with
  | Some s =>
      let '(v, context, s') := Signal.read signal (signalCtx w) s in
      _ ← set_signalCtx context;
      _ ← set_heap (<[signal := s']> (heap w));
      mret v
  | None => mret VUndefined
  end.

(** Calling an entry of [unsubscribers]. *)
Definition unsubscribe (u : Signal.Unsubscriber) : M unit :=
  w ← get;
  set_heap (alter (Signal.unsubscribe (Signal.listener u)) (Signal.target u) (heap w)).

(** ** The hook tools [$signal] and [$mount] *)

(** [signalFactory(signalCtx)(initialValue)]: a new signal object. *)
Definition createSignal (initialValue : Value) : M nat :=
  w ← get;
  let signal := fresh (dom (heap w)) in
  _ ← set_heap (<[signal := Signal.signalFactory initialValue]> (heap w));
  mret signal.

(** [$signal(initialValue)]; the result stands for the tuple
    [createRenderSignal(signal)] of the closures of that signal. *)
Definition dollar_signal (initialValue : Value) : M nat :=
  w ← get;
  match signals w !! signalIndex w with
  | Some signal =>
      _ ← set_signalIndex (S (signalIndex w));
      mret signal
  | None =>
      signal ← createSignal initialValue;
      _ ← set_signals (<[signalIndex w := signal]> (signals w));
      _ ← set_signalIndex (S (signalIndex w));
      mret signal
  end.

(** [$mount(effect)]. *)
Definition dollar_mount (effect : Effect) : M unit :=
  w ← get;
  if negb (hasRendered w) then
    _ ← record (RunEffect (body effect));
    match cleanup effect with
    | Some unmount => set_unmounts (JSSet.add unmount (unmounts w))
    | None => mret tt
    end
  else mret tt.

(** ** User code *)

(** The code of a render function, or of a callback, that reads signals,
    draws ids and calls [$signal] and [$mount].  Callbacks that also call
    [$bind], [$if] and [$for] are those of [Nested.Code], further down. *)
Inductive Code (A : Type) : Type :=
| Return (a : A)
| ReadSignal (signal : nat) (k : Value → Code A)
| CreateId (k : nat → Code A)
| UseSignal (initialValue : Value) (k : nat → Code A)
| UseMount (effect : Effect) (k : Code A).

Arguments Return {A} a.
Arguments ReadSignal {A} signal k.
Arguments CreateId {A} k.
Arguments UseSignal {A} initialValue k.
Arguments UseMount {A} effect k.

Fixpoint run {A : Type} (c : Code A) : M A :=
  match c with
  | Return a => mret a
  | ReadSignal signal k => v ← signal_read signal; run (k v)
  | CreateId k => id ← createId; run (k id)
  | UseSignal initialValue k => signal ← dollar_signal initialValue; run (k signal)
  | UseMount effect k => _ ← dollar_mount effect; run k
  end.

Fixpoint mapM {A B : Type} (f : A → M B) (l : list A) : M (list B) :=
  match l with
  | [] => mret []
  | x :: l => y ← f x; ys ← mapM f l; mret (y :: ys)
  end.

Fixpoint foldM {A B : Type} (f : B → A → M B) (l : list A) (acc : B) : M B :=
  match l with
  | [] => mret acc
  | x :: l => acc ← f acc x; foldM f l acc
  end.

(** ** The component container [$]: lifecycle of one instance *)

Module Dollar.
Section Dollar.
(** The render function of the definition.  [tools] is implicit: [Code]
    reaches the tools of the instance it is run in. *)
Variable renderer : option Props → Code Component.

Definition updateProps (nextProps : option Props) : M unit :=
  w ← get;
  set_propStore {| prev := curr (propStore w); curr := nextProps |}.

(** [propStore.prev && propStore.curr && isSameProps(...)], as a condition. *)
Definition hasSameProps (w : Instance) : bool :=
  match prev (propStore w), curr (propStore w) with
  | Some a, Some b => General.isSameProps a b
  | _, _ => false
  end.

Definition render : M nat :=
  _ ← set_signalIndex 0;
  w ← get;
  _ ← record (Renderer (curr (propStore w)));
  result ← run (renderer (curr (propStore w)));
  _ ← set_hasRendered true;
  node ← call_render result;
  _ ← set_lastRenderResult (Some node);
  mret node.

Definition onDestroy : M unit :=
  w ← get;
  _ ← match lastRenderResult w with
      | Some node => record (NodeRemove node)
      | None => mret tt
      end;
  forEach (λ unmount, record (Unmount unmount)) (JSSet.values (unmounts w)).

Definition reload (newProps : option Props) : M unit :=
  _ ← set_signalIndex 0;
  _ ← updateProps newProps;
  w ← get;
  match lastRenderResult w with
  | Some node =>
      if negb (hasSameProps w) then
        newNode ← render;
        record (NodeReplaceWith node newNode)
      else mret tt
  | None => mret tt
  end.

Definition destroy : M unit := onDestroy.

Definition replace (newComponent : Component) : M unit :=
  replaceWith ← call_render newComponent;
  w ← get;
  _ ← match lastRenderResult w with
      | Some node => record (NodeReplaceWith node replaceWith)
      | None => mret tt
      end;
  onDestroy.

(** [parentElement] answers [node.parentElement] for the document. *)
Definition append (parentElement : nat → option nat) (newComponent : Component) : M unit :=
  appendWith ← call_render newComponent;
  w ← get;
  match lastRenderResult w ≫= parentElement with
  | Some parent => record (NodeAppendChild parent appendWith)
  | None => mret tt
  end.

End Dollar.
End Dollar.

(** ** [$bind] *)

Module Bind.

(** The closure variables of one [$bind] call.  [self] is the reference of
    its [rerender] closure and the id of the object it returns. *)
Record Bind : Type := mkBind {
  self : nat;
  renderFn : Code Component;
  component : option Component;
  initialRender : option nat;
  unsubscribers : list Signal.Unsubscriber;
}.

Definition call_renderFn (self : nat) (renderFn : Code Component) : M Component :=
  _ ← record (RenderFn self); run renderFn.

Definition rerender (b : Bind) : M (Bind * Component) :=
  match component b with
  | Some c =>
      _ ← call_render c;
      mret (b, c)
  | None =>
      c ← call_renderFn (self b) (renderFn b);
      mret (mkBind (self b) (renderFn b) (Some c) (initialRender b) (unsubscribers b), c)
  end.

Definition dollar_bind (renderFn : Code Component) : M Bind :=
  self ← createId;
  _ ← set_currentListener (Some (Fn self));
  component ← call_renderFn self renderFn;
  initialRender ← call_render component;
  w ← get;
  _ ← set_unsubscribers [];
  _ ← set_currentListener None;
  mret (mkBind self renderFn (Some component) (Some initialRender)
               (Signal.unsubscribers (signalCtx w))).

Definition render (b : Bind) : M (Bind * nat) :=
  match component b with
  | Some c =>
      match initialRender b with
      | Some initialRenderCopy =>
          mret (mkBind (self b) (renderFn b) (component b) None (unsubscribers b),
                initialRenderCopy)
      | None =>
          node ← call_render c;
          mret (b, node)
      end
  | None =>
      '(b, c) ← rerender b;
      node ← call_render c;
      mret (mkBind (self b) (renderFn b) (Some c) (initialRender b) (unsubscribers b), node)
  end.

Definition destroy (b : Bind) : M unit :=
  _ ← forEach unsubscribe (unsubscribers b);
  match component b with
  | Some c => record (Destroy c)
  | None => mret tt
  end.

Definition replace (newComponent : Component) (b : Bind) : M unit :=
  match component b with
  | Some c => record (Replace c newComponent)
  | None => mret tt
  end.

Definition append (newComponent : Component) (b : Bind) : M unit :=
  match component b with
  | Some c => record (Append c newComponent)
  | None => mret tt
  end.

End Bind.

(** ** [$if] *)

Module If.

Record If : Type := mkIf {
  self : nat;
  condition : Code bool;
  whenTrue : Component;
  whenFalse : option Component;
  component : option Component;
  unsubscribers : list Signal.Unsubscriber;
}.

Definition call_condition (i : If) : M bool :=
  _ ← record (Condition (self i)); run (condition i).

Definition rerender (i : If) : M (If * Component) :=
  b ← call_condition i;
  renderResult ← (if (b : bool) then mret (whenTrue i)
                  else match whenFalse i with
                       | Some c => mret c
                       | None => createEmptyComponent
                       end);
  match component i with
  | Some c =>
      if negb (same c renderResult) then
        _ ← record (Replace c renderResult);
        _ ← record (Destroy c);
        mret (mkIf (self i) (condition i) (whenTrue i) (whenFalse i) (Some renderResult)
                   (unsubscribers i), renderResult)
      else mret (i, renderResult)
  | None => mret (i, renderResult)
  end.

Definition dollar_if (condition : Code bool) (whenTrue : Component)
  (whenFalse : option Component) : M If :=
  self ← createId;
  _ ← set_currentListener (Some (Fn self));
  '(i, c) ← rerender (mkIf self condition whenTrue whenFalse None []);
  w ← get;
  _ ← set_unsubscribers [];
  _ ← set_currentListener None;
  mret (mkIf self condition whenTrue whenFalse (Some c) (Signal.unsubscribers (signalCtx w))).

Definition render (i : If) : M (If * nat) :=
  match component i with
  | Some c =>
      node ← call_render c;
      mret (i, node)
  | None =>
      '(i, c) ← rerender i;
      node ← call_render c;
      mret (mkIf (self i) (condition i) (whenTrue i) (whenFalse i) (Some c) (unsubscribers i),
            node)
  end.

Definition destroy (i : If) : M unit :=
  _ ← forEach unsubscribe (unsubscribers i);
  match component i with
  | Some c => record (Destroy c)
  | None => mret tt
  end.

Definition replace (newComponent : Component) (i : If) : M unit :=
  match component i with
  | Some c => record (Replace c newComponent)
  | None => mret tt
  end.

Definition append (newComponent : Component) (i : If) : M unit :=
  match component i with
  | Some c => record (Append c newComponent)
  | None => mret tt
  end.

End If.

(** ** [$for] *)

Module For.

Record For : Type := mkFor {
  self : nat;
  items : Code (list Value);
  renderItem : Value → Code Component;
  components : list Component;
  unsubscribers : list Signal.Unsubscriber;
}.

(** [items().map((item) => renderItem(item))]. *)
Definition newComponents (f : For) : M (list Component) :=
  _ ← record (Items (self f));
  array ← run (items f);
  mapM (λ item, _ ← record (RenderItem (self f) item); run (renderItem f item)) array.

(** One turn of the [for (let i = 0; i < length; i++)] loop. *)
Definition turn (components newComponents newComponentsList : list Component) (i : nat)
  : M (list Component) :=
  match components !! i, newComponents !! i with
  | Some prev, Some next =>
      if isCustomComponent prev && isCustomComponent next
         && bool_decide (serial_of prev = serial_of next)
      then
        _ ← record (Reload prev (props_of next));
        mret (newComponentsList ++ [prev])
      else
        _ ← record (Replace prev next);
        mret (newComponentsList ++ [next])
  | None, Some next =>
      (* [newComponentsList[newComponentsList.length - 1]] is there: see
         [For_append_target] *)
      _ ← match last newComponentsList with
          | Some lastComponent => record (Append lastComponent next)
          | None => mret tt
          end;
      mret (newComponentsList ++ [next])
  | Some prev, None =>
      _ ← record (Destroy prev);
      mret newComponentsList
  | None, None => mret newComponentsList
  end.

Definition reconcile (components newComponents : list Component) : M (list Component) :=
  let length := Nat.max (length newComponents) (length components) in
  foldM (turn components newComponents) (seq 0 length) [].

Definition rerender (f : For) : M (For * list Component) :=
  newComponents ← newComponents f;
  components ← (if 0 <? length (components f)
                then reconcile (components f) newComponents
                else mret newComponents);
  components ← (if length components =? 0
                then e ← createEmptyComponent; mret [e]
                else mret components);
  mret (mkFor (self f) (items f) (renderItem f) components (unsubscribers f), components).

Definition dollar_for (items : Code (list Value)) (renderItem : Value → Code Component)
  : M For :=
  self ← createId;
  _ ← set_currentListener (Some (Fn self));
  '(f, components) ← rerender (mkFor self items renderItem [] []);
  components ← (if length components =? 0
                then e ← createEmptyComponent; mret [e]
                else mret components);
  w ← get;
  _ ← set_unsubscribers [];
  _ ← set_currentListener None;
  mret (mkFor self items renderItem components (Signal.unsubscribers (signalCtx w))).

(** The fragment is the list of the nodes appended to it. *)
Definition render (f : For) : M (For * list nat) :=
  components ← (if length (components f) =? 0
                then e ← createEmptyComponent; mret [e]
                else mret (components f));
  frag ← mapM call_render components;
  mret (mkFor (self f) (items f) (renderItem f) components (unsubscribers f), frag).

Definition destroy (f : For) : M unit :=
  _ ← forEach unsubscribe (unsubscribers f);
  if 0 <? length (components f)
  then forEach (λ c, record (Destroy c)) (components f)
  else mret tt.

Definition replace (newComponent : Component) (f : For) : M unit :=
  if 0 <? length (components f) then
    _ ← match components f !! 0 with
        | Some firstComponent => record (Replace firstComponent newComponent)
        | None => mret tt
        end;
    forEach (λ c, record (Destroy c)) (components f)
  else mret tt.

Definition append (newComponent : Component) (f : For) : M unit :=
  if 0 <? length (components f) then
    match components f !! (length (components f) - 1) with
    | Some lastComponent => record (Append lastComponent newComponent)
    | None => mret tt
    end
  else mret tt.

End For.

(** * Vocabulary of the statements *)

(** The calls made between two states of the instance. *)
Definition calls_since (w w' : Instance) : list Call := drop (length (trace w)) (trace w').

(** The instance after some more calls. *)
Definition add_calls (t : list Call) (w : Instance) : Instance :=
  mkInstance (hasRendered w) (signalIndex w) (signals w) (unmounts w) (propStore w)
             (signalCtx w) (lastRenderResult w) (heap w) (nextId w) (trace w ++ t).

(** How often a call was made. *)
Definition occurrences (c : Call) (t : list Call) : nat := length (filter (λ x, x = c) t).

Arguments occurrences : simpl never.



(** What running user code may do to the instance: it leaves the render
    bookkeeping alone, keeps every hook slot and the value of every signal,
    and adds to the trace only the effects that [$mount] runs. *)
Record code_step (w w' : Instance) : Prop := mk_code_step {
  step_hasRendered : hasRendered w' = hasRendered w;
  step_propStore : propStore w' = propStore w;
  step_lastRenderResult : lastRenderResult w' = lastRenderResult w;
  step_signals : ∀ i signal, signals w !! i = Some signal → signals w' !! i = Some signal;
  step_heap : ∀ signal s, heap w !! signal = Some s →
              ∃ s', heap w' !! signal = Some s' ∧ Signal.value s' = Signal.value s;
  step_trace : ∃ t, trace w' = trace w ++ t ∧ Forall (λ c, ∃ b, c = RunEffect b) t;
  step_rendered : hasRendered w = true → trace w' = trace w ∧ unmounts w' = unmounts w;
  step_wf : JSSet.wf (unmounts w) → JSSet.wf (unmounts w');
  step_unmounts : ∀ u, u ∈ JSSet.values (unmounts w) → u ∈ JSSet.values (unmounts w');
}.

(** The code never calls [$mount] with an effect of body [b]. *)
Inductive no_mount {A : Type} (b : nat) : Code A → Prop :=
| no_mount_Return a : no_mount b (Return a)
| no_mount_ReadSignal signal k : (∀ v, no_mount b (k v)) → no_mount b (ReadSignal signal k)
| no_mount_CreateId k : (∀ id, no_mount b (k id)) → no_mount b (CreateId k)
| no_mount_UseSignal initialValue k :
    (∀ signal, no_mount b (k signal)) → no_mount b (UseSignal initialValue k)
| no_mount_UseMount effect k : body effect ≠ b → no_mount b k → no_mount b (UseMount effect k).

(** The code calls [$mount(effect)] once, whatever it reads. *)
Inductive mounts_once {A : Type} (effect : Effect) : Code A → Prop :=
| once_here k : no_mount (body effect) k → mounts_once effect (UseMount effect k)
| once_UseMount effect' k :
    body effect' ≠ body effect → mounts_once effect k → mounts_once effect (UseMount effect' k)
| once_ReadSignal signal k :
    (∀ v, mounts_once effect (k v)) → mounts_once effect (ReadSignal signal k)
| once_CreateId k : (∀ id, mounts_once effect (k id)) → mounts_once effect (CreateId k)
| once_UseSignal initialValue k :
    (∀ signal, mounts_once effect (k signal)) → mounts_once effect (UseSignal initialValue k).

(** The life of an instance: renders and reloads, then [destroy]. *)
Module Lifecycle.

Inductive Op : Type :=
| DoRender
| DoReload (newProps : option Props).

#[global] Instance Op_eq_dec : EqDecision Op.
Proof. solve_decision. Defined.

Definition perform (renderer : option Props → Code Component) (op : Op) : M unit :=
  match op with
  | DoRender => _ ← Dollar.render renderer; mret tt
  | DoReload newProps => Dollar.reload renderer newProps
  end.

Definition lifetime (renderer : option Props → Code Component) (ops : list Op) : M unit :=
  _ ← forEach (perform renderer) ops; Dollar.destroy.

(** Before the first render: the effect of body [b] has not run. *)
Definition unrendered (b u : nat) (w : Instance) : Prop :=
  hasRendered w = false ∧ lastRenderResult w = None ∧
  occurrences (RunEffect b) (trace w) = 0 ∧ occurrences (Unmount u) (trace w) = 0 ∧
  JSSet.wf (unmounts w).

(** From the first render on: it has run once and its cleanup [u] waits. *)
Definition mounted (b u : nat) (w : Instance) : Prop :=
  hasRendered w = true ∧
  occurrences (RunEffect b) (trace w) = 1 ∧ occurrences (Unmount u) (trace w) = 0 ∧
  JSSet.wf (unmounts w) ∧ u ∈ JSSet.values (unmounts w).

End Lifecycle.

(** The operations on the object a [$bind] call returns, and on its
    [rerender] closure. *)
Module BindSpec.
Import Bind.

Inductive Op : Type :=
| Notify
| DoRender
| DoDestroy
| DoReplace (newComponent : Component)
| DoAppend (newComponent : Component).

Definition perform (op : Op) (b : Bind) : M Bind :=
  match op with
  | Notify => '(b, _) ← rerender b; mret b
  | DoRender => '(b, _) ← render b; mret b
  | DoDestroy => _ ← destroy b; mret b
  | DoReplace newComponent => _ ← replace newComponent b; mret b
  | DoAppend newComponent => _ ← append newComponent b; mret b
  end.

(** The later states of a binding: any of its operations, each in any state
    of the instance. *)
Inductive later (b : Bind) : Bind → Prop :=
| later_now : later b b
| later_step b' op w : later b b' → later b (perform op b' w).1.

End BindSpec.

(** The object a [$for] call returns, in its later states: after any
    notifications and [render()] calls ([destroy], [replace] and [append]
    leave its variables as they are). *)
Module ForSpec.

Inductive later (f : For.For) : For.For → Prop :=
| later_now : later f f
| later_rerender f' w : later f f' → later f (For.rerender f' w).1.1
| later_render f' w : later f f' → later f (For.render f' w).1.1.

End ForSpec.

(** An instance of the [$] definition [serial], created with a prop object. *)
Definition instance_of (serial : nat) (c : Component) : Prop :=
  isCustomComponent c = true ∧ serial_of c = Some serial.


(** ** Scenarios *)

Module Scenario.

(** Array objects, by reference. *)
Definition arrays (r : nat) : list Value :=
  match r with
  | 1 => [VString "a"]
  | 2 => [VString "a"; VString "b"]
  | 3 => [VString "a"; VString "b"; VString "c"]
  | 4 => [VString "c"; VString "a"; VString "b"]
  | _ => []
  end.

(** The getter of the first signal of the instance, holding an array. *)
Definition array_signal : Code (list Value) :=
  ReadSignal 0 (λ v, Return (match v with VRef r => arrays r | _ => [] end)).

(** [(item) => li()(item)]. *)
Definition li (item : Value) : Code Component :=
  CreateId (λ id, Return (Intrinsic id "li")).

(** [(item) => Counter({ item })], for the definition of serial [7]. *)
Definition Counter (item : Value) : Code Component :=
  CreateId (λ id, Return (Custom id (Some {[ "item"%string := item ]}) 7)).

(** [() => Clock()], for a definition without props, of serial [8]. *)
Definition Clock (item : Value) : Code Component :=
  CreateId (λ id, Return (Custom id None 8)).

(** The assignment [value = v] of a write, before its notification pass. *)
Definition store (signal : nat) (v : Value) : M unit :=
  w ← get;
  set_heap (alter (λ s, Signal.mkSignal v (Signal.listeners s)) signal (heap w)).

(** An instance whose first signal holds [v]. *)
Definition holding (v : Value) : Instance := (dollar_signal v (instantiate None)).2.

Definition li_list := For.dollar_for array_signal li (holding (VRef 1)).
Definition li_changed := (store 0 (VRef 2) li_list.2).2.


Definition clock_list := For.dollar_for array_signal Clock (holding (VRef 3)).
Definition clock_changed := (store 0 (VRef 4) clock_list.2).2.
Definition clock_reordered := For.rerender clock_list.1 clock_changed.

Definition counter_list := For.dollar_for array_signal Counter (holding (VRef 3)).
Definition counter_changed := (store 0 (VRef 4) counter_list.2).2.



(** [$bind(() => div()(`${count()}`))]. *)
Definition greeting : Code Component :=
  ReadSignal 0 (λ v, CreateId (λ id, Return (Intrinsic id "div"))).


(** [$if(loading)(div()("loading..."))], without a false branch. *)
Definition loading : Code bool :=
  ReadSignal 0 (λ v, Return (bool_decide (v = VBool true))).

Definition spinner_setup : Component * Instance :=
  run (CreateId (λ id, Return (Intrinsic id "div"))) (holding (VBool false)).
Definition spinner := If.dollar_if loading spinner_setup.1 None spinner_setup.2.
Definition spinner_notified := If.rerender spinner.1 spinner.2.
Definition spinner_notified_again := If.rerender spinner_notified.1.1 spinner_notified.2.

(** A render function with one signal and one mount effect. *)
Definition ticking : Effect := {| body := 1; cleanup := Some 2 |}.
Definition Ticker (props : option Props) : Code Component :=
  UseSignal (VNumber 0) (λ _, UseMount ticking (CreateId (λ id, Return (Intrinsic id "div")))).

Definition ticker_rendered : Instance := (Dollar.render Ticker (instantiate None)).2.

(** The ticker as the active branch of an [$if] whose condition becomes
    false: the [$if] calls [replace] and then [destroy] on it. *)
Definition branches : (Component * Component) * Instance :=
  run (CreateId (λ t, CreateId (λ s, Return (Custom t None 9, Intrinsic s "span"))))
      (holding (VBool true)).
Definition shown := If.dollar_if loading branches.1.1 (Some branches.1.2) branches.2.
Definition hidden := If.rerender shown.1 (store 0 (VBool false) shown.2).2.
Definition ticker_abandoned : Instance :=
  (Dollar.destroy (Dollar.replace (Intrinsic 1 "span")
                     (forEach (Lifecycle.perform Ticker)
                        [Lifecycle.DoRender; Lifecycle.DoRender; Lifecycle.DoRender]
                        (instantiate None)).2).2).2.

End Scenario.

(** ** The experimental [$effect] tool *)

Module Effects.

(** What [oldEffect.unmount] holds: the wrapper made when the tracker was
    created, which also takes the cleanup out of [unmounts], or the bare
    cleanup stored by a later run. *)
Inductive Unmounter : Type :=
| Wrapped (unmount : nat)
| Bare (unmount : nat).

Record EffectTracker : Type := mkEffectTracker {
  effect : Effect;
  dependencies : list Value;
  unmount : option Unmounter;
}.

(** The closure variables [effectIndex] and [effects] of the instance. *)
Record Hooks : Type := mkHooks {
  effectIndex : nat;
  effects : gmap nat EffectTracker;
}.

Definition no_hooks : Hooks := {| effectIndex := 0; effects := ∅ |}.

Definition call_unmounter (u : Unmounter) : M unit :=
  match u with
  | Wrapped unmount =>
      w ← get;
      _ ← set_unmounts (JSSet.delete unmount (unmounts w));
      record (Unmount unmount)
  | Bare unmount => record (Unmount unmount)
  end.

(** [$effect(effect, dependencies)]; the [console.warn] is left out. *)
Definition dollar_effect (effect' : Effect) (dependencies' : list Value) (h : Hooks) : M Hooks :=
  match effects h !! effectIndex h with
  | Some oldEffect =>
      oldEffect ←
        (if negb (General.isSameDependencies (dependencies oldEffect) dependencies') then
           _ ← match unmount oldEffect with
               | Some u => call_unmounter u
               | None => mret tt
               end;
           _ ← record (RunEffect (body (effect oldEffect)));
           match cleanup (effect oldEffect) with
           | Some unmount' =>
               w ← get;
               _ ← set_unmounts (JSSet.add unmount' (unmounts w));
               mret (mkEffectTracker (effect oldEffect) (dependencies oldEffect)
                                     (Some (Bare unmount')))
           | None => mret oldEffect
           end
         else mret oldEffect);
      mret {| effectIndex := S (effectIndex h);
              effects := <[effectIndex h := oldEffect]> (effects h) |}
  | None =>
      _ ← record (RunEffect (body effect'));
      unmountFn ←
        match cleanup effect' with
        | Some unmount' =>
            w ← get;
            _ ← set_unmounts (JSSet.add unmount' (unmounts w));
            mret (Some (Wrapped unmount'))
        | None => mret None
        end;
      mret {| effectIndex := S (effectIndex h);
              effects := <[effectIndex h := mkEffectTracker effect' dependencies' unmountFn]>
                           (effects h) |}
  end.

(** No tracker is stored at or after the current index. *)
Definition ahead_empty (h : Hooks) : Prop :=
  ∀ j, effectIndex h ≤ j → effects h !! j = None.

(** The [$effect] calls of an instance, in the order they are made. *)
Definition dollar_effects (calls : list (Effect * list Value)) (h : Hooks) : M Hooks :=
  foldM (λ h c, dollar_effect c.1 c.2 h) calls h.

End Effects.

(** Every filled hook slot refers to a signal object, and no two slots to
    the same one. *)
Definition slots_ok (w : Instance) : Prop :=
  (∀ i signal, signals w !! i = Some signal → is_Some (heap w !! signal)) ∧
  (∀ i j signal, signals w !! i = Some signal → signals w !! j = Some signal → i = j).

(** A listener that unsubscribes [victim] when [killer] is called, and one
    that subscribes [joiner] when [host] is called. *)
Definition removing (killer victim : Listener) (l : Listener) (v : Value)
  (w : Signal.Signal * unit) : Signal.Signal * unit :=
  if decide (l = killer) then (Signal.unsubscribe victim w.1, w.2) else w.

Definition adding (host joiner : Listener) (l : Listener) (v : Value)
  (w : Signal.Signal * unit) : Signal.Signal * unit :=
  if decide (l = host) then ((Signal.subscribe 0 joiner w.1).2, w.2) else w.

(** A signal with four subscribers. *)
Definition crowd : Signal.Signal :=
  {| Signal.value := VNull;
     Signal.listeners := [Some (Fn 0); Some (Fn 1); Some (Fn 2); Some (Fn 3)] |}.

(** The outcome of the [$for] loop at an index present in both arrays: the
    test of the loop, the entry kept and the call made. *)
Definition reusable (prev next : Component) : bool :=
  isCustomComponent prev && isCustomComponent next
  && bool_decide (serial_of prev = serial_of next).

Definition kept (prev next : Component) : Component :=
  if reusable prev next then prev else next.

Definition handed (prev next : Component) : Call :=
  if reusable prev next then Reload prev (props_of next) else Replace prev next.

(** The list and the calls of a whole loop. *)
Definition reconciled (old new : list Component) : list Component :=
  zip_with kept old new ++ drop (length old) new.

Definition reconcile_calls (old new : list Component) : list Call :=
  zip_with handed old new
  ++ zip_with Append (drop (length old - 1) (reconciled old new)) (drop (length old) new)
  ++ (Destroy <$> drop (length new) old).

(** The calls of the turns that only find a new component. *)
Fixpoint appended (acc new : list Component) : list Call :=
  match new with
  | [] => []
  | next :: new =>
      match last acc with
      | Some lastComponent => [Append lastComponent next]
      | None => []
      end ++ appended (acc ++ [next]) new
  end.

(** The loop, turn by turn, on what is left of the two arrays. *)
Fixpoint turns (acc old new : list Component) : list Component * list Call :=
  match old, new with
  | [], _ => (acc ++ new, appended acc new)
  | _ :: _, [] => (acc, Destroy <$> old)
  | prev :: old, next :: new =>
      let r := turns (acc ++ [kept prev next]) old new in
      (r.1, handed prev next :: r.2)
  end.

(** [l] is a listener of some signal of the instance. *)
Definition subscribed (l : Listener) (w : Instance) : Prop :=
  ∃ signal s, heap w !! signal = Some s ∧ l ∈ JSSet.values (Signal.listeners s).

(** Every subscription of [l] has its unsubscriber in [us]. *)
Definition covered (l : Listener) (us : list Signal.Unsubscriber) (w : Instance) : Prop :=
  ∀ signal s, heap w !! signal = Some s → l ∈ JSSet.values (Signal.listeners s) →
  Signal.mkUnsubscriber signal l ∈ us.

(** [l] is the current listener and the context holds an unsubscriber for
    each of its subscriptions. *)
Definition tracking (l : Listener) (w : Instance) : Prop :=
  Signal.currentListener (signalCtx w) = Some l ∧
  covered l (Signal.unsubscribers (signalCtx w)) w.

(** [$if(loading)(div())(span())], with both branches, created while the
    signal holds [false]; then the signal holds [true]. *)
Definition either :=
  If.dollar_if Scenario.loading (Intrinsic 1 "div") (Some (Intrinsic 2 "span"))
               (Scenario.holding (VBool false)).
Definition either_changed := (Scenario.store 0 (VBool true) either.2).2.

(** ** Callbacks that create structural primitives *)

Module Nested.

(** The code of a callback handed to [$bind], [$if] or [$for], which may
    itself call [$bind], [$if] and [$for]: these tools are in scope wherever
    the callback is written.  The callback knows the object such a call
    returns by its reference. *)
Inductive Code (A : Type) : Type :=
| Return (a : A)
| ReadSignal (signal : nat) (k : Value → Code A)
| CreateId (k : nat → Code A)
| UseSignal (initialValue : Value) (k : nat → Code A)
| UseMount (effect : Effect) (k : Code A)
| UseBind (renderFn : Code Component) (k : Component → Code A)
| UseIf (condition : Code bool) (whenTrue : Component) (whenFalse : option Component)
        (k : Component → Code A)
| UseFor (items : Code (list Value)) (renderItem : Value → Code Component)
         (k : Component → Code A).

Arguments Return {A} a.
Arguments ReadSignal {A} signal k.
Arguments CreateId {A} k.
Arguments UseSignal {A} initialValue k.
Arguments UseMount {A} effect k.
Arguments UseBind {A} renderFn k.
Arguments UseIf {A} condition whenTrue whenFalse k.
Arguments UseFor {A} items renderItem k.

(** What [destroy] of the object a structural primitive returns reads of the
    closure variables: the [unsubscribers] and the component (for [$for],
    the components) held.  [self] is the reference of its [rerender]. *)
Record Kept : Type := mkKept {
  self : nat;
  held : list Component;
  unsubscribers : list Signal.Unsubscriber;
}.

(** The body of [$bind], from the assignment of [signalCtx.currentListener]
    to the reset of the context, over the callback as an action. *)
Definition bind_with (renderFn : M Component) : M Kept :=
  self ← createId;
  _ ← set_currentListener (Some (Fn self));
  _ ← record (RenderFn self);
  component ← renderFn;
  initialRender ← call_render component;
  w ← get;
  _ ← set_unsubscribers [];
  _ ← set_currentListener None;
  mret (mkKept self [component] (Signal.unsubscribers (signalCtx w))).

(** The body of [$if]; [component] is still [null] in the first
    [rerender()], so no [replace] is made. *)
Definition if_with (condition : M bool) (whenTrue : Component)
  (whenFalse : option Component) : M Kept :=
  self ← createId;
  _ ← set_currentListener (Some (Fn self));
  _ ← record (Condition self);
  b ← condition;
  renderResult ← (if (b : bool) then mret whenTrue
                  else match whenFalse with
                       | Some c => mret c
                       | None => createEmptyComponent
                       end);
  w ← get;
  _ ← set_unsubscribers [];
  _ ← set_currentListener None;
  mret (mkKept self [renderResult] (Signal.unsubscribers (signalCtx w))).

(** The body of [$for]; [components] is still empty in the first
    [rerender()], which so takes the new components as they are. *)
Definition for_with (items : M (list Value)) (renderItem : Value → M Component) : M Kept :=
  self ← createId;
  _ ← set_currentListener (Some (Fn self));
  _ ← record (Items self);
  array ← items;
  newComponents ← mapM (λ item, _ ← record (RenderItem self item); renderItem item) array;
  components ← (if length newComponents =? 0
                then e ← createEmptyComponent; mret [e]
                else mret newComponents);
  components ← (if length components =? 0
                then e ← createEmptyComponent; mret [e]
                else mret components);
  w ← get;
  _ ← set_unsubscribers [];
  _ ← set_currentListener None;
  mret (mkKept self components (Signal.unsubscribers (signalCtx w))).

Fixpoint run {A : Type} (c : Code A) : M A :=
  match c with
  | Return a => mret a
  | ReadSignal signal k => v ← signal_read signal; run (k v)
  | CreateId k => id ← createId; run (k id)
  | UseSignal initialValue k => signal ← dollar_signal initialValue; run (k signal)
  | UseMount effect k => _ ← dollar_mount effect; run k
  | UseBind renderFn k =>
      o ← bind_with (run renderFn); run (k (Structural (self o)))
  | UseIf condition whenTrue whenFalse k =>
      o ← if_with (run condition) whenTrue whenFalse; run (k (Structural (self o)))
  | UseFor items renderItem k =>
      o ← for_with (run items) (λ item, run (renderItem item));
      run (k (Structural (self o)))
  end.

Definition dollar_bind (renderFn : Code Component) : M Kept := bind_with (run renderFn).

Definition dollar_if (condition : Code bool) (whenTrue : Component)
  (whenFalse : option Component) : M Kept :=
  if_with (run condition) whenTrue whenFalse.

Definition dollar_for (items : Code (list Value)) (renderItem : Value → Code Component)
  : M Kept :=
  for_with (run items) (λ item, run (renderItem item)).

(** [destroy] of the returned object: every unsubscriber is called, then
    [destroy] of what is held. *)
Definition destroy (o : Kept) : M unit :=
  _ ← forEach unsubscribe (unsubscribers o);
  forEach (λ c, record (Destroy c)) (held o).

(** A callback that creates no structural primitive. *)
Inductive flat {A : Type} : Code A → Prop :=
| flat_Return a : flat (Return a)
| flat_ReadSignal signal k : (∀ v, flat (k v)) → flat (ReadSignal signal k)
| flat_CreateId k : (∀ id, flat (k id)) → flat (CreateId k)
| flat_UseSignal initialValue k : (∀ signal, flat (k signal)) → flat (UseSignal initialValue k)
| flat_UseMount effect k : flat k → flat (UseMount effect k).


End Nested.

(** The callbacks of [Code], as callbacks that may create primitives. *)
Fixpoint embed {A : Type} (c : Code A) : Nested.Code A :=
  match c with
  | Return a => Nested.Return a
  | ReadSignal signal k => Nested.ReadSignal signal (λ v, embed (k v))
  | CreateId k => Nested.CreateId (λ id, embed (k id))
  | UseSignal initialValue k => Nested.UseSignal initialValue (λ signal, embed (k signal))
  | UseMount effect k => Nested.UseMount effect (embed k)
  end.




(** * Properties *)

Ltac munfold := unfold mbind, M_bind, mret, M_ret in *.

(** ** util/general.ts *)

Module GeneralFacts.
Import General.

Lemma Object_is_refl (v : Value) : Object_is v v = true.
Proof. unfold Object_is. by apply bool_decide_eq_true. Qed.

(** Two prop objects with the same own keys and [Object.is]-equal values are
    the same finite map; [isSameProps] accepts them. *)
Lemma isSameProps_refl (a : Props) : isSameProps a a = true.
Proof.
  unfold isSameProps. rewrite Nat.eqb_refl. simpl.
  apply forallb_forall. intros key _. apply Object_is_refl.
Qed.



End GeneralFacts.

(** ** JavaScript [Set] *)

Module JSSetFacts.
Import JSSet.
Section JSSetFacts.
Context {A : Type} `{EqDecision A}.

Lemma elem_of_values (x : A) (s : list (option A)) : x ∈ values s ↔ Some x ∈ s.
Proof.
  unfold values. rewrite list_elem_of_omap. split.
  - intros (e & He & Hx). simpl in Hx. by subst.
  - intros Hx. by exists (Some x).
Qed.

Lemma values_app (s t : list (option A)) : values (s ++ t) = values s ++ values t.
Proof. apply omap_app. Qed.

Lemma wf_empty : wf (A:=A) [].
Proof. constructor. Qed.

Lemma wf_add (x : A) (s : list (option A)) : wf s → wf (add x s).
Proof.
  unfold wf, add, has. intros Hs. case_bool_decide as Hx; [done|].
  rewrite values_app. simpl. apply NoDup_app. split; [done|]. split.
  - intros y Hy Hy'. apply list_elem_of_singleton in Hy'. subst.
    by apply elem_of_values in Hy.
  - apply NoDup_singleton.
Qed.

Lemma elem_of_add (x : A) (s : list (option A)) : x ∈ values (add x s).
Proof.
  unfold add, has. case_bool_decide as Hx.
  - by apply elem_of_values.
  - rewrite values_app. apply elem_of_app. right. simpl. apply list_elem_of_here.
Qed.

Lemma values_delete (x : A) (s : list (option A)) :
  values (delete x s) = filter (λ y, y ≠ x) (values s).
Proof.
  unfold values, delete.
  induction s as [|e s IH]; [done|].
  rewrite fmap_cons. destruct e as [y|].
  - change (omap id (Some y :: s)) with (y :: omap id s).
    destruct (decide (Some y = Some x)) as [Heq|Hne].
    + simplify_eq. rewrite filter_cons_False by naive_solver. exact IH.
    + rewrite filter_cons_True by congruence.
      change (omap id (Some y :: ?l)) with (y :: omap id l).
      f_equal. exact IH.
  - destruct (decide (None = Some x)); [done|]. exact IH.
Qed.

Lemma wf_delete (x : A) (s : list (option A)) : wf s → wf (delete x s).
Proof. unfold wf. rewrite values_delete. apply NoDup_filter. Qed.

Lemma not_elem_of_delete (x : A) (s : list (option A)) : x ∉ values (delete x s).
Proof. rewrite values_delete. intros Hx. apply list_elem_of_filter in Hx as [Hne _]. done. Qed.

End JSSetFacts.
End JSSetFacts.

(** ** signalFactory *)

Module SignalFacts.
Import Signal.

Section Write.
Context {E : Type}.
Variable call : Listener → Value → Signal * E → Signal * E.

Lemma forEach_quiet :
  quiet call → ∀ fuel index s e calls,
  length (listeners s) - index < fuel →
  ∃ e', forEach call fuel index (s, e) calls =
        Some (s, e', calls ++ ((λ l, (l, value s)) <$> JSSet.values (drop index (listeners s)))).
Proof.
  intros Hq fuel. induction fuel as [|fuel IH]; intros index s e calls Hfuel; [lia|].
  simpl. destruct (listeners s !! index) as [[l|]|] eqn:Hl.
  - destruct (call l (value s) (s, e)) as [s' e1] eqn:Hc.
    assert (s' = s) as -> by (specialize (Hq l (value s) (s, e)); by rewrite Hc in Hq).
    destruct (IH (S index) s e1 (calls ++ [(l, value s)])) as [e' He'].
    { apply lookup_lt_Some in Hl. lia. }
    exists e'. rewrite He'. rewrite (drop_S _ _ _ Hl).
    by rewrite <- app_assoc.
  - destruct (IH (S index) s e calls) as [e' He'].
    { apply lookup_lt_Some in Hl. lia. }
    exists e'. rewrite He'. by rewrite (drop_S _ _ _ Hl).
  - exists e. apply lookup_ge_None in Hl. rewrite drop_ge by done.
    by rewrite app_nil_r.
Qed.

(** With quiet listeners a write stores the value and calls every current
    subscriber with it, in subscription order. *)
Lemma write_quiet (fuel : nat) (newValue : NewValue) (s : Signal) (e : E) :
  quiet call → length (listeners s) < fuel →
  let v := match newValue with Updater f => f (value s) | Direct v => v end in
  ∃ e', write call fuel newValue (s, e) =
        Some ({| value := v; listeners := listeners s |}, e',
              (λ l, (l, v)) <$> JSSet.values (listeners s)).
Proof.
  intros Hq Hfuel v. unfold write. cbn [fst snd].
  destruct (forEach_quiet Hq fuel 0 {| value := v; listeners := listeners s |} e [])
    as [e' He']; [simpl; lia|].
  exists e'. subst v. rewrite He'. cbn [value listeners app]. by rewrite drop_0.
Qed.

End Write.

Lemma wf_signalFactory (initialValue : Value) : JSSet.wf (listeners (signalFactory initialValue)).
Proof. apply JSSetFacts.wf_empty. Qed.

Lemma wf_read (self : nat) (context : SignalContext) (s : Signal) :
  JSSet.wf (listeners s) → JSSet.wf (listeners (read self context s).2).
Proof.
  intros Hwf. unfold read. destruct (currentListener context); [|done].
  simpl. by apply JSSetFacts.wf_add.
Qed.

Lemma wf_subscribe (self : nat) (l : Listener) (s : Signal) :
  JSSet.wf (listeners s) → JSSet.wf (listeners (subscribe self l s).2).
Proof. intros Hwf. simpl. by apply JSSetFacts.wf_add. Qed.

Lemma wf_unsubscribe (l : Listener) (s : Signal) :
  JSSet.wf (listeners s) → JSSet.wf (listeners (unsubscribe l s)).
Proof. intros Hwf. simpl. by apply JSSetFacts.wf_delete. Qed.

Lemma calls_to_absent (l : Listener) (v : Value) (ls : list Listener) :
  l ∉ ls → calls_to l ((λ l, (l, v)) <$> ls) = [].
Proof.
  unfold calls_to. induction ls as [|y ls IH]; intros Hl; [done|].
  apply not_elem_of_cons in Hl as [Hne Hl]. rewrite fmap_cons.
  rewrite filter_cons_False by (simpl; congruence). by apply IH.
Qed.

(** In a pass over a well-formed set a subscriber is called once. *)
Lemma calls_to_pass (l : Listener) (v : Value) (s : list (option Listener)) :
  JSSet.wf s → l ∈ JSSet.values s →
  calls_to l ((λ l, (l, v)) <$> JSSet.values s) = [(l, v)].
Proof.
  unfold JSSet.wf. generalize (JSSet.values s). intros ls.
  induction ls as [|y ls IH]; intros Hnd Hl.
  - by apply elem_of_nil in Hl.
  - apply NoDup_cons in Hnd as [Hy Hnd]. rewrite fmap_cons. unfold calls_to.
    destruct (decide (y = l)) as [->|Hne].
    + rewrite filter_cons_True by done. f_equal. by apply calls_to_absent.
    + rewrite filter_cons_False by done. apply IH; [done|].
      apply elem_of_cons in Hl as [Hl|Hl]; [congruence|done].
Qed.

Lemma read_subscribes (self : nat) (context : SignalContext) (s : Signal) (l : Listener) :
  currentListener context = Some l →
  (read self context s).2 = {| value := value s; listeners := JSSet.add l (listeners s) |}.
Proof. intros Hl. unfold read. by rewrite Hl. Qed.

Lemma read_value (self : nat) (context : SignalContext) (s : Signal) :
  (read self context s).1.1 = value s.
Proof. unfold read. by destruct (currentListener context). Qed.

Lemma length_add (l : Listener) (s : list (option Listener)) :
  length (JSSet.add l s) ≤ length s + 1.
Proof. unfold JSSet.add. destruct (JSSet.has l s); rewrite ?length_app; simpl; lia. Qed.

(** C2. After [write(v1)] and then [write(v2)] on a signal, [read()] returns
    [v2]; a listener subscribed by a [read()] made while it was the current
    listener of the context is called exactly once in each of the two
    notification passes, with the value just written, whatever [v1] and [v2]
    are (equal to each other or to the stored value included).  The
    listeners are those that leave the signal itself alone, and the pass
    ends within the fuel of one step per entry. *)
Theorem write_then_read {E : Type} (call : Listener → Value → Signal * E → Signal * E)
  (self : nat) (context : SignalContext) (s : Signal) (e : E)
  (l : Listener) (v1 v2 : Value) (fuel : nat) :
  quiet call →
  JSSet.wf (listeners s) →
  currentListener context = Some l →
  length (listeners s) + 1 < fuel →
  ∃ s1 e1 calls1 s2 e2 calls2,
    write call fuel (Direct v1) ((read self context s).2, e) = Some (s1, e1, calls1) ∧
    write call fuel (Direct v2) (s1, e1) = Some (s2, e2, calls2) ∧
    (∀ context', (read self context' s2).1.1 = v2) ∧
    calls_to l calls1 = [(l, v1)] ∧
    calls_to l calls2 = [(l, v2)].
Proof.
  intros Hq Hwf Hl Hfuel.
  rewrite (read_subscribes _ _ _ _ Hl).
  set (ls := JSSet.add l (listeners s)).
  assert (Hlen : length ls < fuel) by (pose proof (length_add l (listeners s)); subst ls; lia).
  assert (Hwf' : JSSet.wf ls) by by apply JSSetFacts.wf_add.
  assert (Hin : l ∈ JSSet.values ls) by apply JSSetFacts.elem_of_add.
  destruct (write_quiet call fuel (Direct v1) {| value := value s; listeners := ls |} e Hq Hlen)
    as [e1 H1].
  destruct (write_quiet call fuel (Direct v2) {| value := v1; listeners := ls |} e1 Hq Hlen)
    as [e2 H2].
  cbn [value listeners] in H1, H2.
  eexists _, e1, _, _, e2, _. split; [exact H1|]. split; [exact H2|].
  split; [intros context'; by rewrite read_value|].
  split; by apply calls_to_pass.
Qed.

(** A subscriber that counts its calls, on a new signal holding [0]; the same
    value [7] is written twice. *)
Lemma write_then_read_witness :
  quiet (E:=nat) (λ _ _ w, (w.1, S w.2)) ∧
  JSSet.wf (listeners (signalFactory (VNumber 0))) ∧
  currentListener {| currentListener := Some (Fn 1); unsubscribers := [] |} = Some (Fn 1) ∧
  length (listeners (signalFactory (VNumber 0))) + 1 < 3 ∧
  ∃ s1 e1 calls1 s2 e2 calls2,
    write (E:=nat) (λ _ _ w, (w.1, S w.2)) 3 (Direct (VNumber 7))
      ((read 0 {| currentListener := Some (Fn 1); unsubscribers := [] |}
          (signalFactory (VNumber 0))).2, 0) = Some (s1, e1, calls1) ∧
    write (E:=nat) (λ _ _ w, (w.1, S w.2)) 3 (Direct (VNumber 7)) (s1, e1)
      = Some (s2, e2, calls2) ∧
    (∀ context', (read 0 context' s2).1.1 = VNumber 7) ∧
    calls_to (Fn 1) calls1 = [(Fn 1, VNumber 7)] ∧
    calls_to (Fn 1) calls2 = [(Fn 1, VNumber 7)].
Proof.
  assert (Hq : quiet (E:=nat) (λ _ _ w, (w.1, S w.2))) by (intros ? ? ?; reflexivity).
  assert (Hwf : JSSet.wf (listeners (signalFactory (VNumber 0)))) by apply wf_signalFactory.
  assert (Hfuel : length (listeners (signalFactory (VNumber 0))) + 1 < 3) by (simpl; lia).
  split; [exact Hq|]. split; [exact Hwf|]. split; [reflexivity|]. split; [exact Hfuel|].
  exact (write_then_read (λ _ _ w, (w.1, S w.2)) 0
           {| currentListener := Some (Fn 1); unsubscribers := [] |}
           (signalFactory (VNumber 0)) 0 (Fn 1) (VNumber 7) (VNumber 7) 3
           Hq Hwf eq_refl Hfuel).
Defined.

End SignalFacts.

(** ** The component container [$] *)

Module DollarFacts.
Import Lifecycle.

Lemma code_step_refl w : code_step w w.
Proof.
  split; try done.
  - intros signal s Hs. by exists s.
  - exists []. by rewrite app_nil_r.
Qed.

Lemma code_step_trans w1 w2 w3 : code_step w1 w2 → code_step w2 w3 → code_step w1 w3.
Proof.
  intros [A1 A2 A3 A4 A5 A6 A7 A8 A9] [B1 B2 B3 B4 B5 B6 B7 B8 B9]. split.
  - congruence.
  - congruence.
  - congruence.
  - auto.
  - intros signal s Hs. destruct (A5 _ _ Hs) as (s' & Hs' & Hv).
    destruct (B5 _ _ Hs') as (s'' & Hs'' & Hv'). exists s''. split; [done|congruence].
  - destruct A6 as (t1 & E1 & Ht1). destruct B6 as (t2 & E2 & Ht2).
    exists (t1 ++ t2). rewrite E2, E1, app_assoc. split; [done|]. by apply Forall_app.
  - intros Hr. destruct (A7 Hr) as [<- <-]. apply B7. congruence.
  - auto.
  - auto.
Qed.

Lemma signal_read_step signal w : code_step w (signal_read signal w).2.
Proof.
  unfold signal_read, get. munfold.
  destruct (heap w !! signal) as [s|] eqn:Hs; [|apply code_step_refl].
  unfold Signal.read. destruct (Signal.currentListener (signalCtx w)); cbn.
  - split; cbn; try done.
    + intros r s0 Hr. destruct (decide (r = signal)) as [->|Hne].
      * rewrite lookup_insert_eq. eexists. split; [done|]. cbn. congruence.
      * rewrite lookup_insert_ne by done. by exists s0.
    + exists []. by rewrite app_nil_r.
  - split; cbn; try done.
    + intros r s0 Hr. destruct (decide (r = signal)) as [->|Hne].
      * rewrite lookup_insert_eq. eexists. split; [done|]. cbn. congruence.
      * rewrite lookup_insert_ne by done. by exists s0.
    + exists []. by rewrite app_nil_r.
Qed.

Lemma createId_step w : code_step w (createId w).2.
Proof.
  unfold createId, get. munfold. cbn. split; cbn; try done.
  - intros r s Hr. by exists s.
  - exists []. by rewrite app_nil_r.
Qed.

Lemma dollar_signal_step initialValue w : code_step w (dollar_signal initialValue w).2.
Proof.
  unfold dollar_signal, createSignal, get. munfold. cbn.
  destruct (signals w !! signalIndex w) as [signal|] eqn:Hs; cbn.
  - split; cbn; try done.
    + intros r s Hr. by exists s.
    + exists []. by rewrite app_nil_r.
  - split; cbn; try done.
    + intros i r Hi. rewrite lookup_insert_ne; [done|]. congruence.
    + intros r s Hr. rewrite lookup_insert_ne; [by exists s|].
      intros <-. pose proof (is_fresh (dom (heap w))) as Hf.
      apply Hf. apply elem_of_dom. by exists s.
    + exists []. by rewrite app_nil_r.
Qed.

Lemma elem_of_add_mono {A : Type} `{EqDecision A} (x u : A) (s : list (option A)) :
  u ∈ JSSet.values s → u ∈ JSSet.values (JSSet.add x s).
Proof.
  intros Hu. unfold JSSet.add. destruct (JSSet.has x s); [done|].
  rewrite JSSetFacts.values_app. apply elem_of_app. by left.
Qed.

Lemma dollar_mount_step effect w : code_step w (dollar_mount effect w).2.
Proof.
  unfold dollar_mount, get. munfold. cbn.
  destruct (hasRendered w) eqn:Hr; cbn; [apply code_step_refl|].
  destruct (cleanup effect) as [unmount|]; cbn.
  - split; cbn; try done; try (rewrite Hr; done).
    + intros r s Hs. by exists s.
    + exists [RunEffect (body effect)]. split; [done|]. repeat constructor. by eexists.
    + by apply JSSetFacts.wf_add.
    + intros u. by apply elem_of_add_mono.
  - split; cbn; try done; try (rewrite Hr; done).
    + intros r s Hs. by exists s.
    + exists [RunEffect (body effect)]. split; [done|]. repeat constructor. by eexists.
Qed.

Lemma run_step {A} (c : Code A) w : code_step w (run c w).2.
Proof.
  revert w. induction c as [a|signal k IH|k IH|initialValue k IH|effect k IH]; intros w; cbn [run].
  - apply code_step_refl.
  - munfold. pose proof (signal_read_step signal w) as Hs.
    destruct (signal_read signal w) as [v w1]. eapply code_step_trans; [exact Hs|apply IH].
  - munfold. pose proof (createId_step w) as Hs.
    destruct (createId w) as [v w1]. eapply code_step_trans; [exact Hs|apply IH].
  - munfold. pose proof (dollar_signal_step initialValue w) as Hs.
    destruct (dollar_signal initialValue w) as [v w1]. eapply code_step_trans; [exact Hs|apply IH].
  - munfold. pose proof (dollar_mount_step effect w) as Hs.
    destruct (dollar_mount effect w) as [v w1]. eapply code_step_trans; [exact Hs|apply IH].
Qed.

(** render, unfolded *)
Lemma render_unfold renderer w :
  let w1 := (record (Renderer (curr (propStore w))) (set_signalIndex 0 w).2).2 in
  let r := run (renderer (curr (propStore w))) w1 in
  Dollar.render renderer w =
  (nextId r.2,
   mkInstance true (signalIndex r.2) (signals r.2) (unmounts r.2) (propStore r.2) (signalCtx r.2)
     (Some (nextId r.2)) (heap r.2) (S (nextId r.2)) (trace r.2 ++ [Render r.1])).
Proof.
  cbn zeta. unfold Dollar.render, call_render, createId, get. munfold. cbn.
  destruct (run _ _) as [result w2]. reflexivity.
Qed.

Lemma occurrences_app c t1 t2 : occurrences c (t1 ++ t2) = occurrences c t1 + occurrences c t2.
Proof. unfold occurrences. by rewrite filter_app, length_app. Qed.

Lemma occurrences_other c t :
  Forall (λ x, x ≠ c) t → occurrences c t = 0.
Proof.
  unfold occurrences. induction 1 as [|x t Hx _ IH]; [done|].
  by rewrite filter_cons_False.
Qed.

Lemma occurrences_Unmount (u : nat) (l : list nat) :
  NoDup l → u ∈ l → occurrences (Unmount u) (Unmount <$> l) = 1.
Proof.
  unfold occurrences. induction l as [|y l IH]; intros Hnd Hu.
  - by apply elem_of_nil in Hu.
  - apply NoDup_cons in Hnd as [Hy Hnd]. rewrite fmap_cons.
    destruct (decide (y = u)) as [->|Hne].
    + rewrite filter_cons_True by done. cbn. f_equal.
      apply (occurrences_other (Unmount u)). apply Forall_fmap, Forall_forall.
      intros z Hz Hf. cbn in Hf. congruence.
    + rewrite filter_cons_False by congruence.
      apply IH; [done|]. apply elem_of_cons in Hu as [Hu|Hu]; [congruence|done].
Qed.

Lemma signal_read_quiet signal w :
  trace (signal_read signal w).2 = trace w ∧
  hasRendered (signal_read signal w).2 = hasRendered w ∧
  unmounts (signal_read signal w).2 = unmounts w.
Proof.
  unfold signal_read, get. munfold. destruct (heap w !! signal); [|done].
  by destruct (Signal.read _ _ _) as [[v c] s'].
Qed.

Lemma createId_quiet w :
  trace (createId w).2 = trace w ∧
  hasRendered (createId w).2 = hasRendered w ∧
  unmounts (createId w).2 = unmounts w.
Proof. done. Qed.

Lemma dollar_signal_quiet initialValue w :
  trace (dollar_signal initialValue w).2 = trace w ∧
  hasRendered (dollar_signal initialValue w).2 = hasRendered w ∧
  unmounts (dollar_signal initialValue w).2 = unmounts w.
Proof.
  unfold dollar_signal, createSignal, get. munfold. cbn.
  by destruct (signals w !! signalIndex w).
Qed.

Lemma occurrences_singleton c x : occurrences c [x] = if decide (x = c) then 1 else 0.
Proof. unfold occurrences. rewrite filter_cons. by destruct (decide (x = c)). Qed.

Lemma dollar_mount_trace effect w :
  trace (dollar_mount effect w).2
  = trace w ++ (if hasRendered w then [] else [RunEffect (body effect)]).
Proof.
  unfold dollar_mount, get. munfold. cbn.
  destruct (hasRendered w); cbn; [by rewrite app_nil_r|].
  by destruct (cleanup effect).
Qed.

Lemma dollar_mount_other b effect w :
  body effect ≠ b →
  occurrences (RunEffect b) (trace (dollar_mount effect w).2) = occurrences (RunEffect b) (trace w).
Proof.
  intros Hne. rewrite dollar_mount_trace, occurrences_app.
  destruct (hasRendered w); [done|].
  rewrite occurrences_singleton, decide_False by congruence. lia.
Qed.

Lemma run_no_mount {A} b (c : Code A) w :
  no_mount b c →
  occurrences (RunEffect b) (trace (run c w).2) = occurrences (RunEffect b) (trace w).
Proof.
  intros Hc. revert w. induction Hc as [a|signal k _ IH|k _ IH|initialValue k _ IH|effect k Hne _ IH];
    intros w; cbn [run]; munfold.
  - done.
  - destruct (signal_read_quiet signal w) as (Ht & _).
    destruct (signal_read signal w) as [v w1]. rewrite IH. by rewrite <- Ht.
  - destruct (createId_quiet w) as (Ht & _).
    destruct (createId w) as [v w1]. rewrite IH. by rewrite <- Ht.
  - destruct (dollar_signal_quiet initialValue w) as (Ht & _).
    destruct (dollar_signal initialValue w) as [v w1]. rewrite IH. by rewrite <- Ht.
  - pose proof (dollar_mount_other b effect w Hne) as Hocc.
    destruct (dollar_mount effect w) as [v w1]. rewrite IH. exact Hocc.
Qed.

Lemma run_mounts_once {A} effect unmount (c : Code A) w :
  mounts_once effect c → hasRendered w = false → cleanup effect = Some unmount →
  occurrences (RunEffect (body effect)) (trace (run c w).2)
    = S (occurrences (RunEffect (body effect)) (trace w)) ∧
  unmount ∈ JSSet.values (unmounts (run c w).2).
Proof.
  intros Hc. revert w.
  induction Hc as [k Hk|effect' k Hne _ IH|signal k _ IH|k _ IH|initialValue k _ IH];
    intros w Hr Hu; cbn [run]; munfold.
  - assert (Hm : trace (dollar_mount effect w).2 = trace w ++ [RunEffect (body effect)] ∧
                 unmount ∈ JSSet.values (unmounts (dollar_mount effect w).2)).
    { split; [by rewrite dollar_mount_trace, Hr|].
      unfold dollar_mount, get. munfold. cbn. rewrite Hr, Hu. cbn.
      apply JSSetFacts.elem_of_add. }
    destruct Hm as [Ht Hin].
    destruct (dollar_mount effect w) as [v w1]. cbn [snd] in *. split.
    + rewrite (run_no_mount _ _ _ Hk), Ht, occurrences_app, occurrences_singleton.
      rewrite decide_True by done. lia.
    + by apply (step_unmounts _ _ (run_step k w1)).
  - assert (Hm : occurrences (RunEffect (body effect)) (trace (dollar_mount effect' w).2)
                 = occurrences (RunEffect (body effect)) (trace w)
               ∧ hasRendered (dollar_mount effect' w).2 = false).
    { split; [by apply dollar_mount_other|].
      by rewrite (step_hasRendered _ _ (dollar_mount_step effect' w)). }
    destruct Hm as [Ht Hr'].
    destruct (dollar_mount effect' w) as [v w1]. cbn [snd] in *.
    destruct (IH w1 Hr' Hu) as [IH1 IH2]. split; [|done]. by rewrite IH1, Ht.
  - destruct (signal_read_quiet signal w) as (Ht & Hr' & _).
    destruct (signal_read signal w) as [v w1]. cbn [snd] in *.
    rewrite <- Ht. apply IH; [congruence|done].
  - destruct (createId_quiet w) as (Ht & Hr' & _).
    destruct (createId w) as [v w1]. cbn [snd] in *.
    rewrite <- Ht. apply IH; [congruence|done].
  - destruct (dollar_signal_quiet initialValue w) as (Ht & Hr' & _).
    destruct (dollar_signal initialValue w) as [v w1]. cbn [snd] in *.
    rewrite <- Ht. apply IH; [congruence|done].
Qed.

Lemma reload_unfold renderer newProps w :
  let w0 := (Dollar.updateProps newProps (set_signalIndex 0 w).2).2 in
  Dollar.reload renderer newProps w =
  match lastRenderResult w with
  | Some node =>
      if negb (Dollar.hasSameProps w0)
      then record (NodeReplaceWith node (Dollar.render renderer w0).1) (Dollar.render renderer w0).2
      else (tt, w0)
  | None => (tt, w0)
  end.
Proof.
  cbn zeta. unfold Dollar.reload, Dollar.updateProps, get. munfold. cbn.
  destruct (lastRenderResult w) as [node|]; [|done].
  destruct (negb _); [|done].
  by destruct (Dollar.render _ _).
Qed.

Lemma occurrences_run_Unmount {A} u (c : Code A) w :
  occurrences (Unmount u) (trace (run c w).2) = occurrences (Unmount u) (trace w).
Proof.
  destruct (step_trace _ _ (run_step c w)) as (t & -> & Hall).
  rewrite occurrences_app, (occurrences_other _ t); [lia|].
  eapply Forall_impl; [exact Hall|]. intros x [b ->]. done.
Qed.

Lemma render_first renderer effect unmount w :
  (∀ p, mounts_once effect (renderer p)) → cleanup effect = Some unmount →
  unrendered (body effect) unmount w →
  mounted (body effect) unmount (Dollar.render renderer w).2.
Proof.
  intros Hc Hu (Hr & _ & He & Hun & Hwf). rewrite render_unfold. cbn [snd].
  set (w1 := (record _ _).2).
  destruct (run_mounts_once effect unmount (renderer (curr (propStore w))) w1 (Hc _) Hr Hu)
    as [Hocc Hin].
  unfold mounted. cbn [hasRendered trace unmounts]. split; [done|].
  rewrite !occurrences_app, Hocc, occurrences_run_Unmount, !occurrences_singleton.
  subst w1. cbn [record set_signalIndex snd trace].
  rewrite !occurrences_app, !occurrences_singleton, He, Hun. cbn.
  split; [done|]. split; [done|]. split; [|done].
  by apply (step_wf _ _ (run_step _ _)).
Qed.

Lemma render_again renderer b u w :
  mounted b u w → mounted b u (Dollar.render renderer w).2.
Proof.
  intros (Hr & He & Hun & Hwf & Hin). rewrite render_unfold. cbn [snd].
  set (w1 := (record _ _).2).
  destruct (step_rendered _ _ (run_step (renderer (curr (propStore w))) w1) Hr) as [Ht Hu].
  unfold mounted. cbn [hasRendered trace unmounts]. rewrite Ht, Hu.
  subst w1. cbn [record set_signalIndex snd trace unmounts].
  rewrite !occurrences_app, !occurrences_singleton, He, Hun. cbn. done.
Qed.

Lemma reload_unrendered renderer newProps b u w :
  unrendered b u w → unrendered b u (Dollar.reload renderer newProps w).2.
Proof.
  intros (Hr & Hl & He & Hun & Hwf). rewrite reload_unfold, Hl. done.
Qed.

Lemma reload_mounted renderer newProps b u w :
  mounted b u w → mounted b u (Dollar.reload renderer newProps w).2.
Proof.
  intros Hm. rewrite reload_unfold.
  set (w0 := (Dollar.updateProps _ _).2).
  assert (Hm0 : mounted b u w0) by exact Hm.
  destruct (lastRenderResult w) as [node|]; [|done].
  destruct (negb _); [|done].
  pose proof (render_again renderer b u w0 Hm0) as (Hr & He & Hun & Hwf & Hin).
  unfold mounted. cbn. rewrite !occurrences_app, !occurrences_singleton, He, Hun. cbn. done.
Qed.

Lemma perform_all renderer effect unmount ops w :
  (∀ p, mounts_once effect (renderer p)) → cleanup effect = Some unmount →
  let w' := (forEach (perform renderer) ops w).2 in
  (unrendered (body effect) unmount w →
     if bool_decide (DoRender ∈ ops) then mounted (body effect) unmount w'
     else unrendered (body effect) unmount w') ∧
  (mounted (body effect) unmount w → mounted (body effect) unmount w').
Proof.
  intros Hc Hu. revert w. induction ops as [|op ops IH]; intros w; cbn zeta.
  - split; [|done]. intros Hw. rewrite bool_decide_eq_false_2; [done|]. apply not_elem_of_nil.
  - cbn [forEach]. munfold.
    destruct op as [|newProps]; cbn [perform]; munfold.
    + destruct (Dollar.render renderer w) as [n w1] eqn:E.
      assert (E1 : w1 = (Dollar.render renderer w).2) by by rewrite E.
      destruct (IH w1) as [_ IH2]. split.
      * intros Hw. rewrite bool_decide_eq_true_2 by apply list_elem_of_here.
        apply IH2. rewrite E1. by apply render_first.
      * intros Hw. apply IH2. rewrite E1. by apply render_again.
    + destruct (Dollar.reload renderer newProps w) as [[] w1] eqn:E.
      assert (E1 : w1 = (Dollar.reload renderer newProps w).2) by by rewrite E.
      destruct (IH w1) as [IH1 IH2]. split.
      * intros Hw. assert (Hw1 : unrendered (body effect) unmount w1)
          by (rewrite E1; by apply reload_unrendered).
        specialize (IH1 Hw1).
        destruct (bool_decide (DoRender ∈ ops)) eqn:Hd.
        -- rewrite bool_decide_eq_true_2; [done|]. apply elem_of_cons. right.
           by apply bool_decide_eq_true in Hd.
        -- rewrite bool_decide_eq_false_2; [done|]. apply bool_decide_eq_false in Hd.
           intros Hin. apply elem_of_cons in Hin as [Hin|Hin]; [done|by apply Hd].
      * intros Hw. apply IH2. rewrite E1. by apply reload_mounted.
Qed.

Lemma forEach_record {A} (f : A → Call) (l : list A) w :
  forEach (λ x, record (f x)) l w =
  (tt, mkInstance (hasRendered w) (signalIndex w) (signals w) (unmounts w) (propStore w)
         (signalCtx w) (lastRenderResult w) (heap w) (nextId w) (trace w ++ (f <$> l))).
Proof.
  revert w. induction l as [|x l IH]; intros w; cbn [forEach]; munfold.
  - cbn. rewrite app_nil_r. by destruct w.
  - cbn. rewrite IH. cbn. by rewrite <- app_assoc.
Qed.

Lemma onDestroy_trace w :
  trace (Dollar.onDestroy w).2 =
  trace w ++ match lastRenderResult w with Some node => [NodeRemove node] | None => [] end
          ++ (Unmount <$> JSSet.values (unmounts w)).
Proof.
  unfold Dollar.onDestroy, get. munfold. cbn.
  destruct (lastRenderResult w) as [node|]; cbn; rewrite forEach_record; cbn.
  - by rewrite <- app_assoc.
  - done.
Qed.

(** X27. Over a life of an instance that consists of renders and reloads
    with at least one [render()], then one [destroy()], and no [replace], an
    effect that the render function passes to [$mount] once per run has its
    body executed exactly once, and the cleanup it returned is called exactly
    once, by [destroy]; the number of renders does not matter. *)
Theorem mount_runs_once renderer effect unmount props ops :
  (∀ p, mounts_once effect (renderer p)) → cleanup effect = Some unmount →
  DoRender ∈ ops →
  let w := (lifetime renderer ops (instantiate props)).2 in
  occurrences (RunEffect (body effect)) (trace w) = 1 ∧
  occurrences (Unmount unmount) (trace w) = 1.
Proof.
  intros Hc Hu Hops. cbn zeta. unfold lifetime, Dollar.destroy. munfold.
  destruct (perform_all renderer effect unmount ops (instantiate props) Hc Hu) as [H1 _].
  rewrite bool_decide_eq_true_2 in H1 by done.
  destruct (forEach (perform renderer) ops (instantiate props)) as [[] w1]. cbn [snd] in H1.
  destruct H1 as (Hr & He & Hun & Hwf & Hin).
  { unfold unrendered. cbn. repeat split; try done. apply JSSetFacts.wf_empty. }
  rewrite onDestroy_trace, !occurrences_app, He, Hun.
  rewrite (occurrences_Unmount _ _ Hwf Hin).
  rewrite (occurrences_other (RunEffect _) (Unmount <$> _)).
  2: { apply Forall_fmap, Forall_forall. intros x _. done. }
  destruct (lastRenderResult w1); cbn; rewrite ?occurrences_singleton; cbn; done.
Qed.

Lemma render_keeps renderer w i signal s :
  signals w !! i = Some signal → heap w !! signal = Some s →
  signals (Dollar.render renderer w).2 !! i = Some signal ∧
  ∃ s', heap (Dollar.render renderer w).2 !! signal = Some s' ∧ Signal.value s' = Signal.value s.
Proof.
  intros Hi Hs. rewrite render_unfold. cbn [snd signals heap].
  set (w1 := (record _ _).2).
  pose proof (run_step (renderer (curr (propStore w))) w1) as Hstep.
  split.
  - by apply (step_signals _ _ Hstep).
  - by apply (step_heap _ _ Hstep).
Qed.

Lemma reload_keeps renderer newProps w i signal s :
  signals w !! i = Some signal → heap w !! signal = Some s →
  signals (Dollar.reload renderer newProps w).2 !! i = Some signal ∧
  ∃ s', heap (Dollar.reload renderer newProps w).2 !! signal = Some s'
        ∧ Signal.value s' = Signal.value s.
Proof.
  intros Hi Hs. rewrite reload_unfold.
  set (w0 := (Dollar.updateProps _ _).2).
  assert (H0 : signals w0 !! i = Some signal ∧ heap w0 !! signal = Some s) by done.
  destruct H0 as [Hi0 Hs0].
  destruct (lastRenderResult w) as [node|]; [|by eauto].
  destruct (negb _); [|by eauto].
  exact (render_keeps renderer w0 i signal s Hi0 Hs0).
Qed.

(** C10. Once slot [i] of an instance holds a signal, a [$signal] call at
    that slot returns that signal whatever initial value it is given, and
    changes nothing but the slot counter; every [render] and [reload] of the
    instance leaves the slot pointing at the same signal, holding the same
    value. *)
Theorem signal_slot_reused renderer (w : Instance) (i signal : nat) (s : Signal.Signal) :
  signals w !! i = Some signal → heap w !! signal = Some s →
  (∀ initialValue, signalIndex w = i →
     dollar_signal initialValue w = (signal, (set_signalIndex (S i) w).2)) ∧
  (signals (Dollar.render renderer w).2 !! i = Some signal ∧
   ∃ s', heap (Dollar.render renderer w).2 !! signal = Some s'
         ∧ Signal.value s' = Signal.value s) ∧
  (∀ newProps,
     signals (Dollar.reload renderer newProps w).2 !! i = Some signal ∧
     ∃ s', heap (Dollar.reload renderer newProps w).2 !! signal = Some s'
           ∧ Signal.value s' = Signal.value s).
Proof.
  intros Hi Hs. split; [|split].
  - intros initialValue <-. unfold dollar_signal, get. munfold. by rewrite Hi.
  - by apply render_keeps.
  - intros newProps. by apply reload_keeps.
Qed.

Lemma render_trace renderer w :
  ∃ t result,
    trace (Dollar.render renderer w).2
      = trace w ++ Renderer (curr (propStore w)) :: t ++ [Render result] ∧
    Forall (λ c, ∃ b, c = RunEffect b) t ∧
    lastRenderResult (Dollar.render renderer w).2 = Some (Dollar.render renderer w).1.
Proof.
  rewrite render_unfold. cbn [fst snd trace lastRenderResult].
  set (w1 := (record _ _).2).
  destruct (step_trace _ _ (run_step (renderer (curr (propStore w))) w1)) as (t & Ht & Hall).
  exists t, (run (renderer (curr (propStore w))) w1).1. split; [|done].
  rewrite Ht. subst w1. cbn [record set_signalIndex snd trace].
  by rewrite <- !app_assoc.
Qed.

(** C9. On a rendered instance, [reload] with the previous or the new prop
    snapshot undefined (so every reload of a definition without props) calls
    the render function with the new props, renders its result and replaces
    the old node by the new one, equal props or not. *)
Theorem reload_without_props renderer (w : Instance) (node : nat) (newProps : option Props) :
  lastRenderResult w = Some node →
  curr (propStore w) = None ∨ newProps = None →
  ∃ t result newNode,
    trace (Dollar.reload renderer newProps w).2
      = trace w ++ Renderer newProps :: t ++ [Render result; NodeReplaceWith node newNode] ∧
    Forall (λ c, ∃ b, c = RunEffect b) t ∧
    lastRenderResult (Dollar.reload renderer newProps w).2 = Some newNode.
Proof.
  intros Hn Hp. rewrite reload_unfold, Hn.
  set (w0 := (Dollar.updateProps _ _).2).
  assert (Hsame : Dollar.hasSameProps w0 = false).
  { subst w0. unfold Dollar.hasSameProps, Dollar.updateProps, get. munfold. cbn.
    destruct Hp as [-> | ->]; [done|]. by destruct (curr (propStore w)). }
  rewrite Hsame. cbn [negb].
  destruct (render_trace renderer w0) as (t & result & Ht & Hall & Hl).
  exists t, result, (Dollar.render renderer w0).1.
  cbn [record snd trace lastRenderResult]. rewrite Ht. split; [|done].
  rewrite <- !app_assoc. cbn. by rewrite <- app_assoc.
Qed.

Lemma reload_same_props renderer (w : Instance) (node : nat) (a b : Props) :
  lastRenderResult w = Some node → curr (propStore w) = Some a →
  General.isSameProps a b = true →
  Dollar.reload renderer (Some b) w
  = (tt, (Dollar.updateProps (Some b) (set_signalIndex 0 w).2).2).
Proof.
  intros Hn Ha Hab. rewrite reload_unfold, Hn.
  unfold Dollar.hasSameProps, Dollar.updateProps, get. munfold. cbn. by rewrite Ha, Hab.
Qed.

(** C5, at the failing input.  An instance first rendered with the props
    [{x: undefined}] is reloaded with [{y: 5}]: the key sets differ, yet
    nothing is called (no render function, no node replaced) and the
    rendered node stays. *)
Theorem reload_skips_changed_keys renderer :
  let a : Props := {[ "x"%string := VUndefined ]} in
  let b : Props := {[ "y"%string := VNumber 5 ]} in
  let w := (Dollar.render renderer (instantiate (Some a))).2 in
  let w' := (Dollar.reload renderer (Some b) w).2 in
  dom a ≠ dom b ∧
  trace w' = trace w ∧ lastRenderResult w' = lastRenderResult w.
Proof.
  cbn zeta. split; [vm_compute; congruence|].
  set (a := {[ "x"%string := VUndefined ]} : Props).
  set (b := {[ "y"%string := VNumber 5 ]} : Props).
  set (w := (Dollar.render renderer (instantiate (Some a))).2).
  destruct (render_trace renderer (instantiate (Some a))) as (_ & _ & _ & _ & Hl).
  assert (Hp : curr (propStore w) = Some a).
  { subst w. rewrite render_unfold. cbn [snd propStore].
    by rewrite (step_propStore _ _ (run_step _ _)). }
  by rewrite (reload_same_props renderer w _ a b Hl Hp).
Qed.

(** The ticker is reloaded before it renders, rendered three times and
    reloaded once more. *)
Lemma mount_runs_once_witness :
  (∀ p, mounts_once Scenario.ticking (Scenario.Ticker p)) ∧
  cleanup Scenario.ticking = Some 2 ∧
  DoRender ∈ [DoReload None; DoRender; DoRender; DoReload (Some ∅); DoRender] ∧
  occurrences (RunEffect 1)
    (trace (lifetime Scenario.Ticker
              [DoReload None; DoRender; DoRender; DoReload (Some ∅); DoRender]
              (instantiate None)).2) = 1 ∧
  occurrences (Unmount 2)
    (trace (lifetime Scenario.Ticker
              [DoReload None; DoRender; DoRender; DoReload (Some ∅); DoRender]
              (instantiate None)).2) = 1.
Proof.
  assert (H1 : ∀ p, mounts_once Scenario.ticking (Scenario.Ticker p)).
  { intros p. apply once_UseSignal. intros signal. apply once_here.
    apply no_mount_CreateId. intros id. apply no_mount_Return. }
  assert (H3 : DoRender ∈ [DoReload None; DoRender; DoRender; DoReload (Some ∅); DoRender]).
  { apply elem_of_cons. right. apply list_elem_of_here. }
  split; [exact H1|]. split; [reflexivity|]. split; [exact H3|].
  exact (mount_runs_once Scenario.Ticker Scenario.ticking 2 None
           [DoReload None; DoRender; DoRender; DoReload (Some ∅); DoRender] H1 eq_refl H3).
Defined.

Lemma signal_slot_reused_witness :
  signals Scenario.ticker_rendered !! 0 = Some 0 ∧
  heap Scenario.ticker_rendered !! 0 = Some (Signal.mkSignal (VNumber 0) []) ∧
  (∀ initialValue, signalIndex Scenario.ticker_rendered = 0 →
     dollar_signal initialValue Scenario.ticker_rendered
     = (0, (set_signalIndex 1 Scenario.ticker_rendered).2)) ∧
  (signals (Dollar.render Scenario.Ticker Scenario.ticker_rendered).2 !! 0 = Some 0 ∧
   ∃ s', heap (Dollar.render Scenario.Ticker Scenario.ticker_rendered).2 !! 0 = Some s'
         ∧ Signal.value s' = VNumber 0) ∧
  (∀ newProps,
     signals (Dollar.reload Scenario.Ticker newProps Scenario.ticker_rendered).2 !! 0 = Some 0 ∧
     ∃ s', heap (Dollar.reload Scenario.Ticker newProps Scenario.ticker_rendered).2 !! 0 = Some s'
           ∧ Signal.value s' = VNumber 0).
Proof.
  assert (H1 : signals Scenario.ticker_rendered !! 0 = Some 0) by (vm_compute; reflexivity).
  assert (H2 : heap Scenario.ticker_rendered !! 0 = Some (Signal.mkSignal (VNumber 0) []))
    by (vm_compute; reflexivity).
  split; [exact H1|]. split; [exact H2|].
  exact (signal_slot_reused Scenario.Ticker Scenario.ticker_rendered 0 0
           (Signal.mkSignal (VNumber 0) []) H1 H2).
Defined.

Lemma reload_without_props_witness :
  lastRenderResult Scenario.ticker_rendered = Some 1 ∧
  (curr (propStore Scenario.ticker_rendered) = None ∨ @None Props = None) ∧
  ∃ t result newNode,
    trace (Dollar.reload Scenario.Ticker None Scenario.ticker_rendered).2
      = trace Scenario.ticker_rendered
        ++ Renderer None :: t ++ [Render result; NodeReplaceWith 1 newNode] ∧
    Forall (λ c, ∃ b, c = RunEffect b) t ∧
    lastRenderResult (Dollar.reload Scenario.Ticker None Scenario.ticker_rendered).2
      = Some newNode.
Proof.
  assert (H1 : lastRenderResult Scenario.ticker_rendered = Some 1) by (vm_compute; reflexivity).
  split; [exact H1|]. split; [right; reflexivity|].
  exact (reload_without_props Scenario.Ticker Scenario.ticker_rendered 1 None H1
           (or_intror eq_refl)).
Defined.

End DollarFacts.

(** ** The structural primitives [$bind], [$if], [$for] *)

Module StructuralFacts.
Import Scenario.

Lemma calls_since_app w t w' : trace w' = trace w ++ t → calls_since w w' = t.
Proof. intros E. unfold calls_since. by rewrite E, drop_app_length. Qed.

Lemma add_calls_nil w : add_calls [] w = w.
Proof. unfold add_calls. rewrite app_nil_r. by destruct w. Qed.

Lemma add_calls_app t1 t2 w : add_calls t2 (add_calls t1 w) = add_calls (t1 ++ t2) w.
Proof. unfold add_calls. cbn. by rewrite app_assoc. Qed.

(** C8. [replace] and [append] of the object returned by [$bind], [$if] or
    [$for], called while it holds no child ([component] null, [components]
    empty), return without a call and leave the instance as it was. *)
Theorem no_child_noop (newComponent : Component) (w : Instance) :
  (∀ self renderFn initialRender unsubscribers,
     let b := Bind.mkBind self renderFn None initialRender unsubscribers in
     Bind.replace newComponent b w = (tt, w) ∧ Bind.append newComponent b w = (tt, w)) ∧
  (∀ self condition whenTrue whenFalse unsubscribers,
     let i := If.mkIf self condition whenTrue whenFalse None unsubscribers in
     If.replace newComponent i w = (tt, w) ∧ If.append newComponent i w = (tt, w)) ∧
  (∀ self items renderItem unsubscribers,
     let f := For.mkFor self items renderItem [] unsubscribers in
     For.replace newComponent f w = (tt, w) ∧ For.append newComponent f w = (tt, w)).
Proof. repeat split. Qed.

(** *** [$bind] *)







(** *** [$if] *)

(** With the chosen branch already active, a notification only evaluates the
    condition. *)
Lemma if_rerender_same (i : If.If) (w : Instance) (c f : Component) :
  If.component i = Some c → If.whenFalse i = Some f →
  same c (if (If.call_condition i w).1 then If.whenTrue i else f) = true →
  If.rerender i w
  = ((i, if (If.call_condition i w).1 then If.whenTrue i else f), (If.call_condition i w).2).
Proof.
  intros Hc Hf Hs. unfold If.rerender. munfold.
  destruct (If.call_condition i w) as [b w1]. cbn [fst snd] in *.
  rewrite Hf, Hc. destruct b; cbn; by rewrite Hs.
Qed.

(** C7, at the failing input.  [$if] without a false branch, the condition
    false from the start: each of two consecutive notifications finds the
    condition false again, yet replaces the placeholder by a new one and
    destroys the old. *)
Theorem if_placeholder_replaced :
  If.whenFalse spinner.1 = None ∧
  If.component spinner.1 = Some (Empty 2) ∧
  calls_since spinner.2 spinner_notified.2
    = [Condition 1; Replace (Empty 2) (Empty 3); Destroy (Empty 2)] ∧
  If.component spinner_notified.1.1 = Some (Empty 3) ∧
  calls_since spinner_notified.2 spinner_notified_again.2
    = [Condition 1; Replace (Empty 3) (Empty 4); Destroy (Empty 3)] ∧
  If.component spinner_notified_again.1.1 = Some (Empty 4).
Proof. repeat split; vm_compute; reflexivity. Qed.

(** C6, at the failing input.  The ticker passes one effect with a cleanup
    to [$mount].  As the active branch of an [$if] whose condition becomes
    false it is handed [replace] and then [destroy]; after three renders
    these two calls leave the body executed once and the cleanup called
    twice. *)
Theorem mount_cleanup_runs_twice :
  If.component shown.1 = Some (Custom 0 None 9) ∧
  calls_since shown.2 hidden.2
    = [Condition 2; Replace (Custom 0 None 9) (Intrinsic 1 "span");
       Destroy (Custom 0 None 9)] ∧
  occurrences (RunEffect (body ticking)) (trace ticker_abandoned) = 1 ∧
  cleanup ticking = Some 2 ∧
  occurrences (Unmount 2) (trace ticker_abandoned) = 2.
Proof. repeat split; vm_compute; reflexivity. Qed.

(** *** [$for] *)

Lemma turn_reload serial old new acc i prev next w :
  old !! i = Some prev → new !! i = Some next →
  instance_of serial prev → instance_of serial next →
  For.turn old new acc i w = (acc ++ [prev], add_calls [Reload prev (props_of next)] w).
Proof.
  intros Ho Hn [Hp Hps] [Hx Hxs]. unfold For.turn. rewrite Ho, Hn, Hp, Hx, Hps, Hxs.
  rewrite bool_decide_eq_true_2 by done. done.
Qed.

Lemma reconcile_from serial old new :
  Forall (instance_of serial) old → Forall (instance_of serial) new →
  length new = length old →
  ∀ m k acc w, k + m = length old →
  foldM (For.turn old new) (seq k m) acc w
  = (acc ++ drop k old, add_calls (zip_with Reload (drop k old) (props_of <$> drop k new)) w).
Proof.
  intros Ho Hn Hlen m. induction m as [|m IH]; intros k acc w Hk.
  - cbn. rewrite !drop_ge by lia. cbn. by rewrite app_nil_r, add_calls_nil.
  - cbn [seq foldM]. munfold.
    destruct (lookup_lt_is_Some_2 old k) as [prev Hprev]; [lia|].
    destruct (lookup_lt_is_Some_2 new k) as [next Hnext]; [lia|].
    rewrite (turn_reload serial old new acc k prev next w Hprev Hnext
               (Forall_lookup_1 _ _ _ _ Ho Hprev) (Forall_lookup_1 _ _ _ _ Hn Hnext)).
    rewrite IH by lia.
    rewrite (drop_S old prev k Hprev), (drop_S new next k Hnext).
    cbn. rewrite add_calls_app, <- app_assoc. done.
Qed.

Lemma reconcile_same_length serial old new w :
  Forall (instance_of serial) old → Forall (instance_of serial) new →
  length new = length old →
  For.reconcile old new w = (old, add_calls (zip_with Reload old (props_of <$> new)) w).
Proof.
  intros Ho Hn Hlen. unfold For.reconcile. rewrite Hlen, Nat.max_id.
  rewrite (reconcile_from serial old new Ho Hn Hlen (length old) 0 [] w) by lia.
  by rewrite !drop_0.
Qed.

(** X26. When the entries of a [$for] list and the components built for the
    new array (of the same length, as after a reordering) are all instances
    of one [$] definition created with prop objects, a notification keeps
    the old instance at every index and calls [reload] on it with the props
    of the new component of that index; it makes no other call. *)
Theorem for_keeps_instances_by_position (f : For.For) (w : Instance) (serial : nat) :
  let new := (For.newComponents f w).1 in
  let w1 := (For.newComponents f w).2 in
  For.components f ≠ [] →
  length new = length (For.components f) →
  Forall (instance_of serial) (For.components f) →
  Forall (instance_of serial) new →
  For.components (For.rerender f w).1.1 = For.components f ∧
  (For.rerender f w).1.2 = For.components f ∧
  calls_since w1 (For.rerender f w).2 = zip_with Reload (For.components f) (props_of <$> new).
Proof.
  cbn zeta. intros Hne Hlen Ho Hn. unfold For.rerender. munfold.
  destruct (For.newComponents f w) as [new w1]. cbn [fst snd] in *.
  destruct (For.components f) as [|c old] eqn:Hc; [done|].
  cbn [length Nat.ltb Nat.leb].
  rewrite (reconcile_same_length serial (c :: old) new w1 Ho Hn Hlen).
  cbn. split; [done|]. split; [done|]. by apply calls_since_app.
Qed.

Lemma counter_list_instances :
  Forall (instance_of 7) (For.components counter_list.1) ∧
  Forall (instance_of 7) (For.newComponents counter_list.1 counter_changed).1.
Proof. split; vm_compute; repeat constructor. Qed.

(** Three counters over the array [a, b, c], reordered to [c, a, b]. *)
Lemma for_keeps_instances_by_position_witness :
  For.components counter_list.1 ≠ [] ∧
  length (For.newComponents counter_list.1 counter_changed).1
    = length (For.components counter_list.1) ∧
  Forall (instance_of 7) (For.components counter_list.1) ∧
  Forall (instance_of 7) (For.newComponents counter_list.1 counter_changed).1 ∧
  For.components (For.rerender counter_list.1 counter_changed).1.1
    = For.components counter_list.1 ∧
  (For.rerender counter_list.1 counter_changed).1.2 = For.components counter_list.1 ∧
  calls_since (For.newComponents counter_list.1 counter_changed).2
              (For.rerender counter_list.1 counter_changed).2
    = zip_with Reload (For.components counter_list.1)
        (props_of <$> (For.newComponents counter_list.1 counter_changed).1).
Proof.
  assert (H1 : For.components counter_list.1 ≠ []) by (vm_compute; discriminate).
  assert (H2 : length (For.newComponents counter_list.1 counter_changed).1
               = length (For.components counter_list.1)) by (vm_compute; reflexivity).
  destruct counter_list_instances as [H3 H4].
  split; [exact H1|]. split; [exact H2|]. split; [exact H3|]. split; [exact H4|].
  exact (for_keeps_instances_by_position counter_list.1 counter_changed 7 H1 H2 H3 H4).
Defined.

(** C3, at the failing input.  Three clocks, instances of one [$]
    definition that takes no props, are listed and the array is reordered:
    every old instance is replaced by a new one, and none is kept or
    reloaded. *)
Theorem for_void_props_replaced :
  For.components clock_list.1 = [Custom 1 None 8; Custom 2 None 8; Custom 3 None 8] ∧
  clock_reordered.1.2 = [Custom 4 None 8; Custom 5 None 8; Custom 6 None 8] ∧
  calls_since clock_changed clock_reordered.2
    = [Items 0; RenderItem 0 (VString "c"); RenderItem 0 (VString "a");
       RenderItem 0 (VString "b");
       Replace (Custom 1 None 8) (Custom 4 None 8);
       Replace (Custom 2 None 8) (Custom 5 None 8);
       Replace (Custom 3 None 8) (Custom 6 None 8)] ∧
  ∀ c p, Reload c p ∉ calls_since clock_changed clock_reordered.2.
Proof.
  assert (E : calls_since clock_changed clock_reordered.2
    = [Items 0; RenderItem 0 (VString "c"); RenderItem 0 (VString "a");
       RenderItem 0 (VString "b");
       Replace (Custom 1 None 8) (Custom 4 None 8);
       Replace (Custom 2 None 8) (Custom 5 None 8);
       Replace (Custom 3 None 8) (Custom 6 None 8)]) by (vm_compute; reflexivity).
  split; [vm_compute; reflexivity|]. split; [vm_compute; reflexivity|].
  split; [exact E|]. rewrite E. intros c p H.
  repeat (apply elem_of_cons in H as [H|H]; [discriminate|]).
  by apply elem_of_nil in H.
Qed.








End StructuralFacts.

(** * Further properties *)

(** ** util/general.ts *)

Module GeneralMore.
Import General.

Lemma Object_is_true (a b : Value) : Object_is a b = true ↔ a = b.
Proof. unfold Object_is. apply bool_decide_eq_true. Qed.

Lemma isSameProps_iff (a b : Props) :
  isSameProps a b = true ↔
  size a = size b ∧ ∀ key v, a !! key = Some v → get b key = v.
Proof.
  unfold isSameProps, Object_keys.
  rewrite !length_fmap, !length_map_to_list. split.
  - destruct (size a =? size b) eqn:E; cbn [negb]; [|done].
    apply Nat.eqb_eq in E. intros Hall. split; [done|]. intros key v Hkey.
    rewrite forallb_forall in Hall. specialize (Hall key).
    unfold get at 1 in Hall. rewrite Hkey in Hall. cbn in Hall.
    symmetry. apply Object_is_true, Hall. apply list_elem_of_In, list_elem_of_fmap.
    exists (key, v). split; [done|]. by apply elem_of_map_to_list.
  - intros [Hsize Hall]. rewrite Hsize, Nat.eqb_refl. cbn [negb].
    apply forallb_forall. intros key Hin.
    apply list_elem_of_In, list_elem_of_fmap in Hin as ([key' v] & -> & Hkv).
    apply elem_of_map_to_list in Hkv. cbn. unfold get at 1. rewrite Hkv. cbn.
    apply Object_is_true. symmetry. by apply Hall.
Qed.

(** X1. [isSameProps(a, b)] holds exactly when the two objects have the same
    number of keys and [b] reads, under every key of [a], the value [a] has
    there; a key [b] does not own reads as what [Object.prototype] has under
    it, and as [undefined] when that has none. *)
Theorem isSameProps_spec (a b : Props) :
  isSameProps a b = true ↔
  size a = size b ∧ ∀ key v, a !! key = Some v → get b key = v.
Proof. exact (isSameProps_iff a b). Qed.

(** X2. When no prop of [a] has the value that an object without this prop
    reads under its key ([undefined], or the member of [Object.prototype] of
    that name), [isSameProps(a, b)] holds only for objects with the same keys
    and the same values. *)
Theorem isSameProps_defined (a b : Props) :
  (∀ key, a !! key ≠ Some (inherited key)) →
  isSameProps a b = true → a = b.
Proof.
  intros Hdef Hsame. apply isSameProps_iff in Hsame as [Hsize Hall].
  apply map_subseteq_size_eq; [|lia].
  apply map_subseteq_spec. intros key v Hkey.
  specialize (Hall key v Hkey). unfold get in Hall.
  destruct (b !! key) as [v'|]; [congruence|].
  subst v. by destruct (Hdef key).
Qed.

Lemma isSameProps_defined_witness :
  (∀ key, ({[ "title"%string := VString "a" ]} : Props) !! key ≠ Some (inherited key)) ∧
  isSameProps {[ "title"%string := VString "a" ]} {[ "title"%string := VString "a" ]} = true ∧
  ({[ "title"%string := VString "a" ]} : Props) = {[ "title"%string := VString "a" ]}.
Proof.
  assert (H : ∀ key, ({[ "title"%string := VString "a" ]} : Props) !! key
                     ≠ Some (inherited key)).
  { intros key Hkey. apply lookup_singleton_Some in Hkey as [_ Hv].
    unfold inherited in Hv. by case_bool_decide. }
  assert (H' : isSameProps {[ "title"%string := VString "a" ]}
                 {[ "title"%string := VString "a" ]} = true) by (vm_compute; reflexivity).
  split; [exact H|]. split; [exact H'|].
  exact (isSameProps_defined {[ "title"%string := VString "a" ]}
           {[ "title"%string := VString "a" ]} H H').
Defined.

(** X30. [isSameProps] does not see that the key sets differ when the one
    key of [a] holds what an object without it reads there: [{x: undefined}]
    and [{y: 5}] compare as the same props, and so do
    [{constructor: Object}] and [{y: 5}]. *)
Theorem isSameProps_misses_key (key key' : string) (v : Value) :
  key ≠ key' →
  isSameProps {[ key := inherited key ]} {[ key' := v ]} = true ∧
  ({[ key := inherited key ]} : Props) ≠ {[ key' := v ]}.
Proof.
  intros Hne. split.
  - apply isSameProps_iff. split; [by rewrite !map_size_singleton|].
    intros k x Hk. apply lookup_singleton_Some in Hk as [<- <-].
    unfold get. by rewrite lookup_singleton_ne.
  - intros E. assert (H : ({[ key := inherited key ]} : Props) !! key' = Some v).
    { rewrite E. apply lookup_singleton_eq. }
    apply lookup_singleton_Some in H as [H _]. done.
Qed.

Lemma isSameProps_misses_key_witness :
  "constructor"%string ≠ "y"%string ∧
  isSameProps {[ "constructor"%string := inherited "constructor" ]}
              {[ "y"%string := VNumber 5 ]} = true ∧
  ({[ "constructor"%string := inherited "constructor" ]} : Props)
    ≠ {[ "y"%string := VNumber 5 ]}.
Proof.
  assert (H : "constructor"%string ≠ "y"%string) by discriminate.
  split; [exact H|].
  exact (isSameProps_misses_key "constructor" "y" (VNumber 5) H).
Defined.

(** X3. [isSameDependencies(a, b)] holds exactly when the two arrays have the
    same length and [Object.is]-equal elements at every index. *)
Theorem isSameDependencies_spec (a b : list Value) :
  isSameDependencies a b = true ↔ a = b.
Proof.
  unfold isSameDependencies. split.
  - destruct (length a =? length b) eqn:E; cbn [negb]; [|done].
    apply Nat.eqb_eq in E. intros Hall. rewrite forallb_forall in Hall.
    apply list_eq_same_length with (length a); [done|done|].
    intros i x y Hi Hx Hy.
    assert (Hin : In (Object_is x (at_index b i))
                     (imap (λ index value, Object_is value (at_index b index)) a)).
    { apply list_elem_of_In, list_elem_of_lookup. exists i.
      by rewrite list_lookup_imap, Hx. }
    apply Hall in Hin. unfold id in Hin. apply Object_is_true in Hin.
    unfold at_index in Hin. rewrite Hy in Hin. done.
  - intros <-. rewrite Nat.eqb_refl. cbn [negb]. apply forallb_forall.
    intros x Hx. apply list_elem_of_In, list_elem_of_lookup in Hx as [i Hi].
    rewrite list_lookup_imap in Hi.
    destruct (a !! i) as [v|] eqn:Hv; [|done]. cbn in Hi. injection Hi as <-.
    unfold id, at_index. rewrite Hv. cbn. by apply Object_is_true.
Qed.

End GeneralMore.

(** ** signalFactory *)

Module SignalMore.
Import Signal.

(** X4. A write whose listeners leave the signal alone stores the new value
    (for an updater, the function applied to the stored one) and calls every
    subscriber, in the order of subscription, each once per entry of the
    set and with the new value. *)
Theorem write_notifies_subscribers {E : Type}
  (call : Listener → Value → Signal * E → Signal * E)
  (fuel : nat) (newValue : NewValue) (s : Signal) (e : E) :
  quiet call → length (listeners s) < fuel →
  ∃ e', write call fuel newValue (s, e) =
        Some ({| value := match newValue with Updater f => f (value s) | Direct v => v end;
                 listeners := listeners s |}, e',
              (λ l, (l, match newValue with Updater f => f (value s) | Direct v => v end))
                <$> JSSet.values (listeners s)).
Proof. intros Hq Hfuel. exact (SignalFacts.write_quiet call fuel newValue s e Hq Hfuel). Qed.

(** Two subscribers; the counter held by the signal is incremented. *)
Lemma write_notifies_subscribers_witness :
  quiet (E:=nat) (λ _ _ w, (w.1, S w.2)) ∧
  length (listeners (mkSignal (VNumber 1) [Some (Fn 1); Some (Fn 2)])) < 3 ∧
  ∃ e', write (E:=nat) (λ _ _ w, (w.1, S w.2)) 3
          (Updater (λ v, match v with VNumber n => VNumber (n + 1) | _ => v end))
          (mkSignal (VNumber 1) [Some (Fn 1); Some (Fn 2)], 0) =
        Some (mkSignal (VNumber 2) [Some (Fn 1); Some (Fn 2)], e',
              [(Fn 1, VNumber 2); (Fn 2, VNumber 2)]).
Proof.
  assert (Hq : quiet (E:=nat) (λ _ _ w, (w.1, S w.2))) by (intros ? ? ?; reflexivity).
  assert (Hf : length (listeners (mkSignal (VNumber 1) [Some (Fn 1); Some (Fn 2)])) < 3)
    by (simpl; lia).
  split; [exact Hq|]. split; [exact Hf|].
  exact (write_notifies_subscribers (λ _ _ w, (w.1, S w.2)) 3
           (Updater (λ v, match v with VNumber n => VNumber (n + 1) | _ => v end))
           (mkSignal (VNumber 1) [Some (Fn 1); Some (Fn 2)]) 0 Hq Hf).
Defined.

Lemma length_delete (l : Listener) (s : list (option Listener)) :
  length (JSSet.delete l s) = length s.
Proof. unfold JSSet.delete. apply length_fmap. Qed.

(** X5. After [unsubscribe(l)] (or a call of a closure returned by
    [subscribe] or pushed by [read], which deletes the same way) a write no
    longer calls [l]. *)
Theorem unsubscribed_not_called {E : Type}
  (call : Listener → Value → Signal * E → Signal * E)
  (fuel : nat) (newValue : NewValue) (s : Signal) (e : E) (l : Listener) :
  quiet call → length (listeners s) < fuel →
  ∃ s' e' calls,
    write call fuel newValue (unsubscribe l s, e) = Some (s', e', calls) ∧
    calls_to l calls = [].
Proof.
  intros Hq Hfuel.
  destruct (SignalFacts.write_quiet call fuel newValue (unsubscribe l s) e Hq) as [e' He'].
  { cbn. by rewrite length_delete. }
  eexists _, e', _. split; [exact He'|].
  apply SignalFacts.calls_to_absent. cbn. apply JSSetFacts.not_elem_of_delete.
Qed.

Lemma unsubscribed_not_called_witness :
  quiet (E:=nat) (λ _ _ w, (w.1, S w.2)) ∧
  length (listeners (subscribe 0 (Fn 1) (signalFactory (VNumber 0))).2) < 2 ∧
  ∃ s' e' calls,
    write (E:=nat) (λ _ _ w, (w.1, S w.2)) 2 (Direct (VNumber 5))
      (unsubscribe (Fn 1) (subscribe 0 (Fn 1) (signalFactory (VNumber 0))).2, 0)
      = Some (s', e', calls) ∧
    calls_to (Fn 1) calls = [].
Proof.
  assert (Hq : quiet (E:=nat) (λ _ _ w, (w.1, S w.2))) by (intros ? ? ?; reflexivity).
  assert (Hf : length (listeners (subscribe 0 (Fn 1) (signalFactory (VNumber 0))).2) < 2)
    by (vm_compute; lia).
  split; [exact Hq|]. split; [exact Hf|].
  exact (unsubscribed_not_called (λ _ _ w, (w.1, S w.2)) 2 (Direct (VNumber 5))
           (subscribe 0 (Fn 1) (signalFactory (VNumber 0))).2 0 (Fn 1) Hq Hf).
Defined.

End SignalMore.

Module SignalPass.
Import Signal.

Section Pass.
Variable call : Listener → Value → Signal * unit → Signal * unit.

(** A stretch of the set whose listeners leave the signal alone is passed
    with one call per live entry. *)
Lemma forEach_inert (mid : list (option Listener)) :
  ∀ (pre post : list (option Listener)) (fuel : nat) (s : Signal) calls,
  listeners s = pre ++ mid ++ post →
  (∀ l, Some l ∈ mid → call l (value s) (s, tt) = (s, tt)) →
  forEach call (length mid + fuel) (length pre) (s, tt) calls
  = forEach call fuel (length pre + length mid) (s, tt)
      (calls ++ ((λ l, (l, value s)) <$> JSSet.values mid)).
Proof.
  induction mid as [|e mid IH]; intros pre post fuel s calls Hs Hcall.
  - cbn. by rewrite Nat.add_0_r, app_nil_r.
  - cbn [length Nat.add forEach fst].
    assert (Hl : listeners s !! length pre = Some e).
    { rewrite Hs. by rewrite lookup_app_r, Nat.sub_diag by lia. }
    rewrite Hl.
    assert (Hs' : listeners s = (pre ++ [e]) ++ mid ++ post).
    { rewrite Hs. by rewrite <- app_assoc. }
    assert (Hlen : S (length pre) = length (pre ++ [e])).
    { rewrite length_app. cbn. lia. }
    destruct e as [l|].
    + rewrite Hcall by apply list_elem_of_here.
      rewrite Hlen, (IH (pre ++ [Some l]) post fuel s _ Hs').
      2: { intros l' Hl'. apply Hcall. by apply elem_of_cons; right. }
      rewrite length_app. cbn [length]. rewrite <- app_assoc.
      f_equal. lia.
    + rewrite Hlen, (IH (pre ++ [None]) post fuel s _ Hs').
      2: { intros l' Hl'. apply Hcall. by apply elem_of_cons; right. }
      rewrite length_app. cbn [length].
      f_equal. lia.
Qed.

(** The rest of a pass, when no listener still to come changes the set. *)
Lemma forEach_rest (pre mid : list (option Listener)) (fuel : nat) (s : Signal) calls :
  listeners s = pre ++ mid →
  (∀ l, Some l ∈ mid → call l (value s) (s, tt) = (s, tt)) →
  length mid < fuel →
  forEach call fuel (length pre) (s, tt) calls
  = Some (s, tt, calls ++ ((λ l, (l, value s)) <$> JSSet.values mid)).
Proof.
  intros Hs Hcall Hfuel.
  replace fuel with (length mid + (fuel - length mid)) by lia.
  rewrite (forEach_inert mid pre [] _ s calls) by (by rewrite ?app_nil_r).
  destruct (fuel - length mid) as [|fuel'] eqn:E; [lia|].
  cbn [forEach fst].
  rewrite lookup_ge_None_2; [done|]. rewrite Hs, length_app. lia.
Qed.

End Pass.

Lemma delete_again (l : Listener) (s : list (option Listener)) :
  JSSet.delete l (JSSet.delete l s) = JSSet.delete l s.
Proof.
  unfold JSSet.delete. rewrite <- list_fmap_compose. apply list_fmap_ext.
  intros i e _. cbn. destruct (decide (e = Some l)) as [->|Hne].
  - by rewrite decide_False.
  - by rewrite decide_False.
Qed.

Lemma removing_other (killer victim l : Listener) v w :
  l ≠ killer → removing killer victim l v w = w.
Proof. intros Hne. unfold removing. by rewrite decide_False. Qed.

Lemma adding_other (host joiner l : Listener) v w :
  l ≠ host → adding host joiner l v w = w.
Proof. intros Hne. unfold adding. by rewrite decide_False. Qed.

(** X6. The notification pass follows the live set, whatever the set is.
    When the listener [l1] unsubscribes [l2] as it is called, the pass calls
    the subscribers before [l1], then [l1], then those after [l1] except
    [l2]: an [l2] that comes after [l1] is not called.  When [l1] subscribes
    a new listener [l2] as it is called, the pass calls every subscriber and
    then [l2]. *)
Theorem pass_follows_live_set (s : Signal) (pre post : list (option Listener))
  (l1 l2 : Listener) (newValue : NewValue) (fuel : nat) :
  listeners s = pre ++ Some l1 :: post →
  Some l1 ∉ pre →
  S (length (listeners s)) < fuel →
  let v := match newValue with Updater f => f (value s) | Direct v => v end in
  write (removing l1 l2) fuel newValue (s, tt)
  = Some ({| value := v; listeners := JSSet.delete l2 (listeners s) |}, tt,
          (λ l, (l, v)) <$> (JSSet.values pre ++ l1 :: JSSet.values (JSSet.delete l2 post))) ∧
  (Some l2 ∉ listeners s →
   write (adding l1 l2) fuel newValue (s, tt)
   = Some ({| value := v; listeners := listeners s ++ [Some l2] |}, tt,
           (λ l, (l, v)) <$> (JSSet.values (listeners s) ++ [l2]))).
Proof.
  intros Hs Hpre Hfuel v. unfold write. cbn [fst snd].
  set (s0 := {| value := v; listeners := listeners s |}).
  assert (Hs0 : listeners s0 = [] ++ pre ++ Some l1 :: post) by done.
  assert (Hlen : length (listeners s) = length pre + S (length post)).
  { rewrite Hs, length_app. done. }
  assert (Hl1 : listeners s0 !! length pre = Some (Some l1)).
  { cbn. rewrite Hs. by rewrite lookup_app_r, Nat.sub_diag by lia. }
  split.
  - replace fuel with (length pre + (fuel - length pre)) by lia.
    rewrite (forEach_inert (removing l1 l2) pre [] (Some l1 :: post) _ s0 [] Hs0).
    2: { intros l Hl. apply removing_other. congruence. }
    destruct (fuel - length pre) as [|fuel'] eqn:E; [lia|].
    cbn [forEach fst length Nat.add app]. rewrite Hl1.
    unfold removing at 2. rewrite decide_True by done.
    cbn [fst snd unsubscribe value listeners].
    set (s1 := {| value := v; listeners := JSSet.delete l2 (listeners s) |}).
    set (x := if decide (Some l1 = Some l2) then None else Some l1).
    assert (Hs1 : listeners s1 = (JSSet.delete l2 pre ++ [x]) ++ JSSet.delete l2 post).
    { cbn. rewrite Hs. unfold JSSet.delete. rewrite fmap_app, fmap_cons.
      by rewrite <- app_assoc. }
    assert (Hidx : S (length pre) = length (JSSet.delete l2 pre ++ [x])).
    { rewrite length_app. unfold JSSet.delete. rewrite length_fmap. cbn. lia. }
    rewrite Hidx.
    rewrite (forEach_rest (removing l1 l2) _ (JSSet.delete l2 post) fuel' s1 _ Hs1).
    + cbn [value]. f_equal. f_equal. rewrite fmap_app, fmap_cons.
      by rewrite <- app_assoc.
    + intros l _. unfold removing. destruct (decide (l = l1)) as [->|Hne]; [|done].
      cbn [fst snd]. unfold unsubscribe, s1. cbn [value listeners].
      by rewrite delete_again.
    + unfold JSSet.delete. rewrite length_fmap. lia.
  - intros Hl2.
    replace fuel with (length pre + (fuel - length pre)) by lia.
    rewrite (forEach_inert (adding l1 l2) pre [] (Some l1 :: post) _ s0 [] Hs0).
    2: { intros l Hl. apply adding_other. congruence. }
    destruct (fuel - length pre) as [|fuel'] eqn:E; [lia|].
    cbn [forEach fst length Nat.add app]. rewrite Hl1.
    unfold adding at 2. rewrite decide_True by done.
    cbn [fst snd subscribe value listeners].
    assert (Hadd : JSSet.add l2 (listeners s) = listeners s ++ [Some l2]).
    { unfold JSSet.add, JSSet.has. by rewrite bool_decide_eq_false_2. }
    change (listeners s0) with (listeners s). change (value s0) with v. rewrite Hadd.
    set (s1 := {| value := v; listeners := listeners s ++ [Some l2] |}).
    assert (Hs1 : listeners s1 = (pre ++ [Some l1]) ++ (post ++ [Some l2])).
    { cbn. rewrite Hs. by rewrite <- !app_assoc. }
    assert (Hidx : S (length pre) = length (pre ++ [Some l1])).
    { rewrite length_app. cbn. lia. }
    rewrite Hidx.
    rewrite (forEach_rest (adding l1 l2) _ (post ++ [Some l2]) fuel' s1 _ Hs1).
    + cbn [value]. f_equal. f_equal. rewrite Hs.
      rewrite !JSSetFacts.values_app, !fmap_app. cbn.
      by rewrite <- !app_assoc.
    + intros l _. unfold adding. destruct (decide (l = l1)) as [->|Hne]; [|done].
      cbn [fst snd]. unfold subscribe, s1. cbn [fst snd value listeners].
      unfold JSSet.add, JSSet.has. rewrite bool_decide_eq_true_2; [done|].
      apply elem_of_app. right. apply list_elem_of_here.
    + rewrite length_app. cbn. lia.
Qed.

Lemma pass_follows_live_set_witness :
  listeners crowd = [Some (Fn 0)] ++ Some (Fn 1) :: [Some (Fn 2); Some (Fn 3)] ∧
  (Some (Fn 1) ∉ [Some (Fn 0)]) ∧
  S (length (listeners crowd)) < 6 ∧
  (Some (Fn 4) ∉ listeners crowd) ∧
  write (removing (Fn 1) (Fn 3)) 6 (Direct (VNumber 9)) (crowd, tt)
  = Some ({| value := VNumber 9; listeners := JSSet.delete (Fn 3) (listeners crowd) |}, tt,
          (λ l, (l, VNumber 9))
            <$> (JSSet.values [Some (Fn 0)]
                 ++ Fn 1 :: JSSet.values (JSSet.delete (Fn 3) [Some (Fn 2); Some (Fn 3)]))) ∧
  write (adding (Fn 1) (Fn 4)) 6 (Direct (VNumber 9)) (crowd, tt)
  = Some ({| value := VNumber 9; listeners := listeners crowd ++ [Some (Fn 4)] |}, tt,
          (λ l, (l, VNumber 9)) <$> (JSSet.values (listeners crowd) ++ [Fn 4])).
Proof.
  assert (H1 : listeners crowd = [Some (Fn 0)] ++ Some (Fn 1) :: [Some (Fn 2); Some (Fn 3)])
    by reflexivity.
  assert (H2 : Some (Fn 1) ∉ [Some (Fn 0)]).
  { intros H. apply list_elem_of_singleton in H. discriminate. }
  assert (H3 : S (length (listeners crowd)) < 6) by (simpl; lia).
  assert (H4 : Some (Fn 4) ∉ listeners crowd).
  { intros H. repeat (apply elem_of_cons in H as [H|H]; [discriminate|]).
    by apply elem_of_nil in H. }
  split; [exact H1|]. split; [exact H2|]. split; [exact H3|]. split; [exact H4|].
  split.
  - exact (proj1 (pass_follows_live_set crowd [Some (Fn 0)] [Some (Fn 2); Some (Fn 3)]
                    (Fn 1) (Fn 3) (Direct (VNumber 9)) 6 H1 H2 H3)).
  - exact (proj2 (pass_follows_live_set crowd [Some (Fn 0)] [Some (Fn 2); Some (Fn 3)]
                    (Fn 1) (Fn 4) (Direct (VNumber 9)) 6 H1 H2 H3) H4).
Defined.

End SignalPass.

(** ** The component container [$] *)

Module DollarMore.
Import Lifecycle.

(** X7. A [$signal] call at an empty slot makes a new signal object, holding
    the initial value and without listeners, stores it in the slot and moves
    to the next slot; reading the returned signal gives the initial value. *)
Theorem signal_slot_created (initialValue : Value) (w : Instance) :
  signals w !! signalIndex w = None →
  heap w !! (dollar_signal initialValue w).1 = None ∧
  signals (dollar_signal initialValue w).2 !! signalIndex w
    = Some (dollar_signal initialValue w).1 ∧
  heap (dollar_signal initialValue w).2 !! (dollar_signal initialValue w).1
    = Some (Signal.signalFactory initialValue) ∧
  signalIndex (dollar_signal initialValue w).2 = S (signalIndex w) ∧
  (signal_read (dollar_signal initialValue w).1 (dollar_signal initialValue w).2).1
    = initialValue.
Proof.
  intros Hs. unfold dollar_signal, createSignal, get. munfold. cbn. rewrite Hs. cbn.
  rewrite !lookup_insert_eq. split.
  { apply not_elem_of_dom. apply is_fresh. }
  split; [done|]. split; [done|]. split; [done|].
  unfold signal_read, get. munfold. cbn. rewrite lookup_insert_eq.
  unfold Signal.read. by destruct (Signal.currentListener (signalCtx w)).
Qed.

Lemma signal_slot_created_witness :
  signals (instantiate None) !! signalIndex (instantiate None) = None ∧
  heap (instantiate None) !! (dollar_signal (VNumber 3) (instantiate None)).1 = None ∧
  signals (dollar_signal (VNumber 3) (instantiate None)).2 !! signalIndex (instantiate None)
    = Some (dollar_signal (VNumber 3) (instantiate None)).1 ∧
  heap (dollar_signal (VNumber 3) (instantiate None)).2
    !! (dollar_signal (VNumber 3) (instantiate None)).1
    = Some (Signal.signalFactory (VNumber 3)) ∧
  signalIndex (dollar_signal (VNumber 3) (instantiate None)).2
    = S (signalIndex (instantiate None)) ∧
  (signal_read (dollar_signal (VNumber 3) (instantiate None)).1
     (dollar_signal (VNumber 3) (instantiate None)).2).1 = VNumber 3.
Proof.
  assert (H : signals (instantiate None) !! signalIndex (instantiate None) = None)
    by reflexivity.
  split; [exact H|].
  exact (signal_slot_created (VNumber 3) (instantiate None) H).
Defined.

Lemma slots_ok_same w w' :
  signals w' = signals w → heap w' = heap w → slots_ok w → slots_ok w'.
Proof. intros Hs Hh [H1 H2]. unfold slots_ok. rewrite Hs, Hh. done. Qed.

Lemma signal_read_slots_ok signal w : slots_ok w → slots_ok (signal_read signal w).2.
Proof.
  intros [H1 H2]. unfold signal_read, get. munfold.
  destruct (heap w !! signal) as [s|] eqn:Hs; [|done].
  destruct (Signal.read signal (signalCtx w) s) as [[v c] s']. cbn. split; cbn.
  - intros i r Hi. destruct (decide (r = signal)) as [->|Hne].
    + rewrite lookup_insert_eq. by eexists.
    + rewrite lookup_insert_ne by done. eauto.
  - exact H2.
Qed.

Lemma dollar_signal_slots_ok initialValue w :
  slots_ok w → slots_ok (dollar_signal initialValue w).2.
Proof.
  intros [H1 H2]. unfold dollar_signal, createSignal, get. munfold. cbn.
  destruct (signals w !! signalIndex w) as [signal|] eqn:Hs; cbn; [done|].
  assert (Hfresh : ∀ i r, signals w !! i = Some r → r ≠ fresh (dom (heap w))).
  { intros i r Hi ->. apply H1 in Hi. apply elem_of_dom in Hi. by apply is_fresh in Hi. }
  split; cbn.
  - intros i r Hi. destruct (decide (signalIndex w = i)) as [<-|Hne].
    + rewrite lookup_insert_eq in Hi. injection Hi as <-. rewrite lookup_insert_eq. by eexists.
    + rewrite lookup_insert_ne in Hi by done.
      rewrite lookup_insert_ne by (intros E; by apply (Hfresh i r Hi)). eauto.
  - intros i j r Hi Hj.
    destruct (decide (signalIndex w = i)) as [<-|Hni];
      destruct (decide (signalIndex w = j)) as [<-|Hnj]; [done|..].
    + rewrite lookup_insert_eq in Hi. injection Hi as <-.
      rewrite lookup_insert_ne in Hj by done. by destruct (Hfresh j _ Hj).
    + rewrite lookup_insert_eq in Hj. injection Hj as <-.
      rewrite lookup_insert_ne in Hi by done. by destruct (Hfresh i _ Hi).
    + rewrite lookup_insert_ne in Hi by done. rewrite lookup_insert_ne in Hj by done. eauto.
Qed.

Lemma dollar_mount_slots_ok effect w : slots_ok w → slots_ok (dollar_mount effect w).2.
Proof.
  apply slots_ok_same; unfold dollar_mount, get; munfold; cbn;
    destruct (hasRendered w); cbn; try done; by destruct (cleanup effect).
Qed.

Lemma run_slots_ok {A : Type} (c : Code A) w : slots_ok w → slots_ok (run c w).2.
Proof.
  revert w. induction c as [a|signal k IH|k IH|initialValue k IH|effect k IH];
    intros w Hw; cbn [run]; munfold.
  - done.
  - pose proof (signal_read_slots_ok signal w Hw) as Hs.
    destruct (signal_read signal w) as [v w1]. by apply IH.
  - assert (Hs : slots_ok (createId w).2) by exact Hw.
    destruct (createId w) as [v w1]. by apply IH.
  - pose proof (dollar_signal_slots_ok initialValue w Hw) as Hs.
    destruct (dollar_signal initialValue w) as [v w1]. by apply IH.
  - pose proof (dollar_mount_slots_ok effect w Hw) as Hs.
    destruct (dollar_mount effect w) as [v w1]. by apply IH.
Qed.

Lemma render_slots_ok renderer w : slots_ok w → slots_ok (Dollar.render renderer w).2.
Proof.
  intros Hw. rewrite DollarFacts.render_unfold. cbn [snd].
  set (w1 := (record _ _).2).
  assert (H1 : slots_ok w1) by exact Hw.
  pose proof (run_slots_ok (renderer (curr (propStore w))) w1 H1) as Hr.
  revert Hr. by apply slots_ok_same.
Qed.

Lemma reload_slots_ok renderer newProps w :
  slots_ok w → slots_ok (Dollar.reload renderer newProps w).2.
Proof.
  intros Hw. rewrite DollarFacts.reload_unfold.
  set (w0 := (Dollar.updateProps _ _).2).
  assert (H0 : slots_ok w0) by exact Hw.
  destruct (lastRenderResult w) as [node|]; [|done].
  destruct (negb _); [|done].
  pose proof (render_slots_ok renderer w0 H0) as Hr. revert Hr.
  by apply slots_ok_same.
Qed.

(** X8. In every state an instance reaches by renders and reloads, each
    filled hook slot refers to a signal object of the instance and no two
    slots refer to the same one. *)
Theorem slots_never_alias (renderer : option Props → Code Component)
  (props : option Props) (ops : list Op) :
  slots_ok (forEach (perform renderer) ops (instantiate props)).2.
Proof.
  assert (H0 : slots_ok (instantiate props)).
  { split; intros *; cbn; by rewrite lookup_empty. }
  revert H0. generalize (instantiate props). induction ops as [|op ops IH]; intros w Hw.
  - done.
  - cbn [forEach]. munfold. destruct op as [|newProps]; cbn [perform]; munfold.
    + pose proof (render_slots_ok renderer w Hw) as Hr.
      destruct (Dollar.render renderer w) as [n w1]. by apply IH.
    + pose proof (reload_slots_ok renderer newProps w Hw) as Hr.
      destruct (Dollar.reload renderer newProps w) as [[] w1]. by apply IH.
Qed.

(** X9. Before the first render a reload calls nothing: it only stores the
    props, and the first render then hands these props to the render
    function. *)
Theorem reload_before_first_render renderer (newProps : option Props) (w : Instance) :
  lastRenderResult w = None →
  calls_since w (Dollar.reload renderer newProps w).2 = [] ∧
  ∃ t result,
    calls_since w (Dollar.render renderer (Dollar.reload renderer newProps w).2).2
      = Renderer newProps :: t ++ [Render result] ∧
    Forall (λ c, ∃ b, c = RunEffect b) t.
Proof.
  intros Hl. rewrite DollarFacts.reload_unfold, Hl. cbn [snd].
  set (w0 := (Dollar.updateProps _ _).2).
  assert (Ht : trace w0 = trace w) by done.
  assert (Hp : curr (propStore w0) = newProps) by done.
  split.
  - apply StructuralFacts.calls_since_app. by rewrite Ht, app_nil_r.
  - destruct (DollarFacts.render_trace renderer w0) as (t & result & Hr & Hall & _).
    exists t, result. split; [|done].
    apply StructuralFacts.calls_since_app. by rewrite Hr, Ht, Hp.
Qed.

Lemma reload_before_first_render_witness :
  lastRenderResult (instantiate None) = None ∧
  calls_since (instantiate None)
    (Dollar.reload Scenario.Ticker (Some ∅) (instantiate None)).2 = [] ∧
  ∃ t result,
    calls_since (instantiate None)
      (Dollar.render Scenario.Ticker
         (Dollar.reload Scenario.Ticker (Some ∅) (instantiate None)).2).2
      = Renderer (Some ∅) :: t ++ [Render result] ∧
    Forall (λ c, ∃ b, c = RunEffect b) t.
Proof.
  split; [reflexivity|].
  exact (reload_before_first_render Scenario.Ticker (Some ∅) (instantiate None) eq_refl).
Defined.



Lemma onDestroy_unfold (w : Instance) :
  Dollar.onDestroy w
  = (tt, add_calls (match lastRenderResult w with
                    | Some node => [NodeRemove node]
                    | None => []
                    end ++ (Unmount <$> JSSet.values (unmounts w))) w).
Proof.
  unfold Dollar.onDestroy, get. munfold. cbn.
  destruct (lastRenderResult w) as [node|] eqn:Hl; cbn; rewrite DollarFacts.forEach_record; cbn.
  - unfold add_calls. rewrite Hl. by rewrite <- app_assoc.
  - unfold add_calls. by rewrite Hl.
Qed.

Lemma occurrences_nil (c : Call) : occurrences c [] = 0.
Proof. done. Qed.

Lemma occurrences_cons (c x : Call) (t : list Call) :
  occurrences c (x :: t) = (if decide (x = c) then 1 else 0) + occurrences c t.
Proof.
  change (x :: t) with ([x] ++ t).
  by rewrite DollarFacts.occurrences_app, DollarFacts.occurrences_singleton.
Qed.

(** X11. [replace] followed by [destroy] on an instance, which is what [$if]
    does to the branch it abandons, calls every cleanup registered by
    [$mount] twice. *)
Theorem replace_then_destroy_unmounts_twice (newComponent : Component) (w : Instance)
  (u : nat) :
  JSSet.wf (unmounts w) → u ∈ JSSet.values (unmounts w) →
  occurrences (Unmount u)
    (calls_since w (Dollar.destroy (Dollar.replace newComponent w).2).2) = 2.
Proof.
  intros Hwf Hu.
  assert (Hocc : occurrences (Unmount u) (Unmount <$> JSSet.values (unmounts w)) = 1)
    by by apply DollarFacts.occurrences_Unmount.
  unfold Dollar.destroy, Dollar.replace, call_render, createId, get. munfold. cbn.
  destruct (lastRenderResult w) as [node|] eqn:Hl; cbn;
    rewrite !onDestroy_unfold; cbn; rewrite ?Hl.
  - erewrite StructuralFacts.calls_since_app.
    2: { cbn. rewrite <- !app_assoc. reflexivity. }
    change (omap id (unmounts w)) with (JSSet.values (unmounts w)).
    rewrite ?DollarFacts.occurrences_app, ?occurrences_cons, ?Hocc, ?occurrences_nil.
    repeat (rewrite decide_False by discriminate). lia.
  - erewrite StructuralFacts.calls_since_app.
    2: { cbn. rewrite <- !app_assoc. reflexivity. }
    change (omap id (unmounts w)) with (JSSet.values (unmounts w)).
    rewrite ?DollarFacts.occurrences_app, ?occurrences_cons, ?Hocc, ?occurrences_nil.
    repeat (rewrite decide_False by discriminate). lia.
Qed.

Lemma replace_then_destroy_unmounts_twice_witness :
  JSSet.wf (unmounts Scenario.ticker_rendered) ∧
  2 ∈ JSSet.values (unmounts Scenario.ticker_rendered) ∧
  occurrences (Unmount 2)
    (calls_since Scenario.ticker_rendered
       (Dollar.destroy (Dollar.replace (Empty 9) Scenario.ticker_rendered).2).2) = 2.
Proof.
  assert (H1 : JSSet.wf (unmounts Scenario.ticker_rendered)).
  { vm_compute. apply NoDup_singleton. }
  assert (H2 : 2 ∈ JSSet.values (unmounts Scenario.ticker_rendered)).
  { vm_compute. apply list_elem_of_here. }
  split; [exact H1|]. split; [exact H2|].
  exact (replace_then_destroy_unmounts_twice (Empty 9) Scenario.ticker_rendered 2 H1 H2).
Defined.



End DollarMore.

(** ** The experimental [$effect] tool *)

Module EffectsFacts.
Import Effects.

Lemma dollar_effect_runs effect' dependencies' h w :
  ahead_empty h →
  trace (dollar_effect effect' dependencies' h w).2 = trace w ++ [RunEffect (body effect')] ∧
  ahead_empty (dollar_effect effect' dependencies' h w).1.
Proof.
  intros Hh. unfold dollar_effect. rewrite (Hh (effectIndex h)) by lia.
  munfold. cbn. unfold get. destruct (cleanup effect') as [unmount'|]; cbn.
  - split; [done|]. intros j Hj. cbn in *. rewrite lookup_insert_ne by lia. apply Hh. lia.
  - split; [done|]. intros j Hj. cbn in *. rewrite lookup_insert_ne by lia. apply Hh. lia.
Qed.

Lemma dollar_effects_run calls : ∀ h w,
  ahead_empty h →
  trace (dollar_effects calls h w).2 = trace w ++ ((λ c, RunEffect (body c.1)) <$> calls).
Proof.
  induction calls as [|c calls IH]; intros h w Hh.
  - cbn. by rewrite app_nil_r.
  - unfold dollar_effects in *. cbn [foldM]. munfold.
    destruct (dollar_effect_runs c.1 c.2 h w Hh) as [Ht Hh'].
    destruct (dollar_effect c.1 c.2 h w) as [h1 w1]. cbn [fst snd] in *.
    rewrite (IH h1 w1 Hh'), Ht. by rewrite <- app_assoc.
Qed.

(** X13. Nothing resets [effectIndex], so no [$effect] call of an instance
    ever finds an earlier tracker at its index: every call runs the effect
    it is given, whatever the dependencies, also when they are the same as
    in the call before. *)
Theorem effect_runs_on_every_call (calls : list (Effect * list Value)) (w : Instance) :
  calls_since w (dollar_effects calls no_hooks w).2
  = (λ c, RunEffect (body c.1)) <$> calls.
Proof.
  apply StructuralFacts.calls_since_app. apply dollar_effects_run.
  intros j _. apply lookup_empty.
Qed.

End EffectsFacts.

(** ** [$for] *)

Module ForMore.
Import StructuralFacts.

Lemma turn_both old new acc i prev next w :
  old !! i = Some prev → new !! i = Some next →
  For.turn old new acc i w = (acc ++ [kept prev next], add_calls [handed prev next] w).
Proof.
  intros Ho Hn. unfold For.turn, kept, handed, reusable. rewrite Ho, Hn.
  by destruct (isCustomComponent prev && isCustomComponent next && bool_decide _).
Qed.

Lemma turn_new old new acc i next w :
  old !! i = None → new !! i = Some next →
  For.turn old new acc i w
  = (acc ++ [next],
     add_calls match last acc with Some t => [Append t next] | None => [] end w).
Proof.
  intros Ho Hn. unfold For.turn. rewrite Ho, Hn. munfold.
  destruct (last acc); cbn; [done|]. by rewrite add_calls_nil.
Qed.

Lemma turn_old old new acc i prev w :
  old !! i = Some prev → new !! i = None →
  For.turn old new acc i w = (acc, add_calls [Destroy prev] w).
Proof. intros Ho Hn. unfold For.turn. by rewrite Ho, Hn. Qed.

Lemma turn_none old new acc i w :
  old !! i = None → new !! i = None → For.turn old new acc i w = (acc, w).
Proof. intros Ho Hn. unfold For.turn. by rewrite Ho, Hn. Qed.

Lemma turns_nil_r acc old : turns acc old [] = (acc, Destroy <$> old).
Proof. destruct old; cbn; [by rewrite app_nil_r|done]. Qed.

Lemma foldM_turns old new : ∀ j k acc w,
  k + j = Nat.max (length new) (length old) →
  foldM (For.turn old new) (seq k j) acc w
  = ((turns acc (drop k old) (drop k new)).1,
     add_calls (turns acc (drop k old) (drop k new)).2 w).
Proof.
  induction j as [|j IH]; intros k acc w Hk.
  - cbn. rewrite !drop_ge by lia. cbn. by rewrite app_nil_r, add_calls_nil.
  - cbn [seq foldM]. munfold.
    destruct (old !! k) as [prev|] eqn:Ho; destruct (new !! k) as [next|] eqn:Hn.
    + rewrite (turn_both _ _ _ _ _ _ _ Ho Hn), IH by lia.
      rewrite (drop_S old prev k Ho), (drop_S new next k Hn). cbn.
      by rewrite add_calls_app.
    + rewrite (turn_old _ _ _ _ _ _ Ho Hn), IH by lia.
      apply lookup_ge_None in Hn.
      rewrite (drop_S old prev k Ho), (drop_ge new k), (drop_ge new (S k)) by lia.
      rewrite turns_nil_r. cbn. by rewrite add_calls_app.
    + rewrite (turn_new _ _ _ _ _ _ Ho Hn), IH by lia.
      apply lookup_ge_None in Ho.
      rewrite (drop_S new next k Hn), (drop_ge old k), (drop_ge old (S k)) by lia.
      cbn. rewrite add_calls_app, <- app_assoc. done.
    + apply lookup_ge_None in Ho. apply lookup_ge_None in Hn. lia.
Qed.

Lemma appended_spec : ∀ new acc t,
  last acc = Some t →
  appended acc new = zip_with Append (t :: new) new.
Proof.
  induction new as [|next new IH]; intros acc t Ht; [done|].
  cbn. rewrite Ht. cbn. f_equal. apply IH. by rewrite last_snoc.
Qed.

Lemma turns_fst : ∀ old new acc, (turns acc old new).1 = acc ++ reconciled old new.
Proof.
  unfold reconciled. induction old as [|prev old IH]; intros new acc; [done|].
  destruct new as [|next new]; cbn; [by rewrite app_nil_r|].
  rewrite IH. by rewrite <- app_assoc.
Qed.

Lemma drop_last_app (acc rest : list Component) t :
  last acc = Some t → drop (length acc - 1) (acc ++ rest) = t :: rest.
Proof.
  intros Ht. destruct (last_Some acc t) as [H _]. destruct (H Ht) as [acc' ->].
  rewrite length_app. cbn. replace (length acc' + 1 - 1) with (length acc' + 0) by lia.
  rewrite <- app_assoc, drop_app_add. done.
Qed.

Lemma turns_snd : ∀ old new acc t,
  last (acc ++ zip_with kept old new) = Some t →
  (turns acc old new).2
  = zip_with handed old new
    ++ zip_with Append (t :: drop (length old) new) (drop (length old) new)
    ++ (Destroy <$> drop (length new) old).
Proof.
  induction old as [|prev old IH]; intros new acc t Ht.
  - cbn in *. rewrite app_nil_r in Ht. rewrite (appended_spec new acc t Ht).
    by rewrite drop_nil, app_nil_r.
  - destruct new as [|next new]; cbn; [done|].
    f_equal. apply IH. cbn in Ht. by rewrite <- app_assoc.
Qed.

Lemma length_reconciled old new :
  length (reconciled old new) = Nat.max (length new) (length old) - (length old - length new).
Proof. unfold reconciled. rewrite length_app, length_zip_with, length_drop. lia. Qed.

Lemma reconcile_unfold old new w :
  For.reconcile old new w
  = ((turns [] old new).1, add_calls (turns [] old new).2 w).
Proof.
  unfold For.reconcile.
  rewrite (foldM_turns old new (Nat.max (length new) (length old)) 0 [] w) by lia.
  by rewrite !drop_0.
Qed.

(** The whole loop: the entry kept at each index of both arrays, then the
    added components; the calls handed to the old entries, then one
    [append] per added component on the entry before it, then one
    [destroy] per old entry without a new component. *)
Lemma reconcile_spec (old new : list Component) (w : Instance) :
  old ≠ [] →
  For.reconcile old new w = (reconciled old new, add_calls (reconcile_calls old new) w).
Proof.
  intros Hold. rewrite reconcile_unfold, turns_fst. cbn [app]. f_equal. f_equal.
  unfold reconcile_calls.
  destruct new as [|next new].
  - rewrite turns_nil_r. cbn [snd]. by rewrite drop_nil, !zip_with_nil_r, drop_0.
  - destruct old as [|prev old]; [done|].
    destruct (last (zip_with kept (prev :: old) (next :: new))) as [t|] eqn:Ht.
    2: { apply last_None in Ht. discriminate. }
    rewrite (turns_snd _ _ [] t Ht). f_equal. f_equal.
    destruct (decide (length (prev :: old) ≤ length (next :: new))) as [Hle|Hgt].
    + unfold reconciled. rewrite <- (drop_last_app _ _ t Ht).
      rewrite length_zip_with, Nat.min_l by lia. done.
    + rewrite (drop_ge (next :: new)) by lia. by rewrite !zip_with_nil_r.
Qed.

Lemma turns_length : ∀ j k acc w old new,
  length (foldM (For.turn old new) (seq k j) acc w).1
  = length acc + (Nat.min (k + j) (length new) - Nat.min k (length new)).
Proof.
  induction j as [|j IH]; intros k acc w old new.
  - cbn [seq foldM]. munfold. cbn [fst]. lia.
  - cbn [seq foldM]. munfold.
    destruct (old !! k) as [prev|] eqn:Ho; destruct (new !! k) as [next|] eqn:Hn.
    + rewrite (turn_both _ _ _ _ _ _ _ Ho Hn), IH, length_app. cbn [length].
      apply lookup_lt_Some in Hn. lia.
    + rewrite (turn_old _ _ _ _ _ _ Ho Hn), IH. apply lookup_ge_None in Hn. lia.
    + rewrite (turn_new _ _ _ _ _ _ Ho Hn), IH, length_app. cbn [length].
      apply lookup_lt_Some in Hn. lia.
    + rewrite (turn_none _ _ _ _ _ Ho Hn), IH. apply lookup_ge_None in Hn. lia.
Qed.

(** The entry that a turn appends to is there: the loop only runs over a
    list that is not empty, so an index past its end is not the first. *)
Lemma For_append_target (old new : list Component) (w : Instance) (i : nat) :
  old ≠ [] → old !! i = None → is_Some (new !! i) →
  is_Some (last (foldM (For.turn old new) (seq 0 i) [] w).1).
Proof.
  intros Hold Ho Hn. apply lookup_ge_None in Ho. apply lookup_lt_is_Some in Hn.
  pose proof (turns_length i 0 [] w old new) as Hlen.
  destruct old as [|prev old]; [done|]. cbn in Ho.
  destruct (foldM _ _ _ _).1 as [|x xs] eqn:E using rev_ind.
  - cbn in Hlen. lia.
  - rewrite last_snoc. by eexists.
Qed.

(** X14. A notification of a [$for] list that is not empty, with an array
    that is not empty: at every index of both the old list and the new
    components the old entry is reloaded and kept (same-definition instances
    with prop objects) or replaced by the new component; every further new
    component is appended to the entry before it; every further old entry is
    destroyed. *)
Theorem for_notification_spec (f : For.For) (w : Instance) :
  For.components f ≠ [] →
  (For.newComponents f w).1 ≠ [] →
  (For.rerender f w).1.2 = reconciled (For.components f) (For.newComponents f w).1 ∧
  For.components (For.rerender f w).1.1
    = reconciled (For.components f) (For.newComponents f w).1 ∧
  calls_since (For.newComponents f w).2 (For.rerender f w).2
    = reconcile_calls (For.components f) (For.newComponents f w).1.
Proof.
  intros Hold Hnew. unfold For.rerender. munfold.
  destruct (For.newComponents f w) as [new w1]. cbn [fst snd] in *.
  destruct (For.components f) as [|prev old] eqn:Hc; [done|].
  cbn [length Nat.ltb Nat.leb].
  rewrite (reconcile_spec (prev :: old) new w1) by done.
  pose proof (length_reconciled (prev :: old) new) as Hlen.
  destruct (reconciled (prev :: old) new) as [|x xs] eqn:Hr.
  { destruct new; [done|]. cbn in Hlen. lia. }
  cbn. split; [done|]. split; [done|]. by apply calls_since_app.
Qed.

Lemma for_notification_spec_witness :
  For.components Scenario.li_list.1 ≠ [] ∧
  (For.newComponents Scenario.li_list.1 Scenario.li_changed).1 ≠ [] ∧
  (For.rerender Scenario.li_list.1 Scenario.li_changed).1.2
    = reconciled (For.components Scenario.li_list.1)
        (For.newComponents Scenario.li_list.1 Scenario.li_changed).1 ∧
  For.components (For.rerender Scenario.li_list.1 Scenario.li_changed).1.1
    = reconciled (For.components Scenario.li_list.1)
        (For.newComponents Scenario.li_list.1 Scenario.li_changed).1 ∧
  calls_since (For.newComponents Scenario.li_list.1 Scenario.li_changed).2
    (For.rerender Scenario.li_list.1 Scenario.li_changed).2
    = reconcile_calls (For.components Scenario.li_list.1)
        (For.newComponents Scenario.li_list.1 Scenario.li_changed).1.
Proof.
  assert (H1 : For.components Scenario.li_list.1 ≠ []) by (vm_compute; discriminate).
  assert (H2 : (For.newComponents Scenario.li_list.1 Scenario.li_changed).1 ≠ [])
    by (vm_compute; discriminate).
  split; [exact H1|]. split; [exact H2|].
  exact (for_notification_spec Scenario.li_list.1 Scenario.li_changed H1 H2).
Defined.

(** X15. When the array has become empty, a notification destroys every
    entry and makes a new placeholder the only entry; the placeholder is not
    rendered. *)
Theorem for_emptied (f : For.For) (w : Instance) :
  (For.newComponents f w).1 = [] →
  (For.rerender f w).1.2 = [Empty (nextId (For.newComponents f w).2)] ∧
  calls_since (For.newComponents f w).2 (For.rerender f w).2
    = (Destroy <$> For.components f).
Proof.
  intros Hnew. unfold For.rerender. munfold.
  destruct (For.newComponents f w) as [new w1]. cbn [fst snd] in *. subst new.
  destruct (For.components f) as [|prev old] eqn:Hc.
  - cbn. split; [done|]. apply calls_since_app. cbn. by rewrite app_nil_r.
  - cbn [length Nat.ltb Nat.leb].
    rewrite (reconcile_spec (prev :: old) [] w1) by done.
    unfold reconciled, reconcile_calls. cbn. rewrite zip_with_nil_r.
    unfold createEmptyComponent, createId, get. munfold. cbn.
    split; [done|]. by apply calls_since_app.
Qed.

Lemma for_emptied_witness :
  (For.newComponents Scenario.li_list.1
     (Scenario.store 0 (VRef 0) Scenario.li_list.2).2).1 = [] ∧
  (For.rerender Scenario.li_list.1 (Scenario.store 0 (VRef 0) Scenario.li_list.2).2).1.2
    = [Empty (nextId (For.newComponents Scenario.li_list.1
                        (Scenario.store 0 (VRef 0) Scenario.li_list.2).2).2)] ∧
  calls_since
    (For.newComponents Scenario.li_list.1 (Scenario.store 0 (VRef 0) Scenario.li_list.2).2).2
    (For.rerender Scenario.li_list.1 (Scenario.store 0 (VRef 0) Scenario.li_list.2).2).2
    = (Destroy <$> For.components Scenario.li_list.1).
Proof.
  assert (H : (For.newComponents Scenario.li_list.1
                 (Scenario.store 0 (VRef 0) Scenario.li_list.2).2).1 = [])
    by (vm_compute; reflexivity).
  split; [exact H|].
  exact (for_emptied Scenario.li_list.1 (Scenario.store 0 (VRef 0) Scenario.li_list.2).2 H).
Defined.


End ForMore.

(** ** Subscriptions of the structural primitives *)

Module TrackingFacts.

Lemma tracking_same l w w' :
  heap w' = heap w → signalCtx w' = signalCtx w → tracking l w → tracking l w'.
Proof. intros Hh Hc [H1 H2]. unfold tracking, covered. rewrite Hh, Hc. done. Qed.

Lemma signal_read_tracking l signal w : tracking l w → tracking l (signal_read signal w).2.
Proof.
  intros [Hl Hc]. unfold signal_read, get. munfold.
  destruct (heap w !! signal) as [s|] eqn:Hs; [|done].
  unfold Signal.read. rewrite Hl. cbn. split; [done|].
  intros r s' Hr Hin. cbn in *. apply elem_of_app.
  destruct (decide (r = signal)) as [->|Hne].
  - right. apply list_elem_of_singleton. done.
  - left. rewrite lookup_insert_ne in Hr by done. by apply (Hc r s').
Qed.

Lemma dollar_signal_tracking l initialValue w :
  tracking l w → tracking l (dollar_signal initialValue w).2.
Proof.
  intros [Hl Hc]. unfold dollar_signal, createSignal, get. munfold. cbn.
  destruct (signals w !! signalIndex w) as [signal|]; cbn; [done|].
  split; [done|]. intros r s Hr Hin. cbn in *.
  destruct (decide (r = fresh (dom (heap w)))) as [->|Hne].
  - rewrite lookup_insert_eq in Hr. injection Hr as <-. cbn in Hin.
    by apply elem_of_nil in Hin.
  - rewrite lookup_insert_ne in Hr by done. by apply (Hc r s).
Qed.

Lemma dollar_mount_tracking l effect w : tracking l w → tracking l (dollar_mount effect w).2.
Proof.
  apply tracking_same; unfold dollar_mount, get; munfold; cbn;
    destruct (hasRendered w); cbn; try done; by destruct (cleanup effect).
Qed.

(** Calling the unsubscribers that cover a listener leaves it subscribed to
    nothing. *)
Lemma forEach_unsubscribe l : ∀ us w,
  covered l us w → ¬ subscribed l (forEach unsubscribe us w).2.
Proof.
  induction us as [|u us IH]; intros w Hc.
  - cbn. intros (r & s & Hr & Hin). by apply (Hc r s Hr), elem_of_nil in Hin.
  - cbn [forEach]. munfold.
    destruct (unsubscribe u w) as [[] w1] eqn:E. apply IH.
    assert (Hh : heap w1 = alter (Signal.unsubscribe (Signal.listener u)) (Signal.target u)
                                 (heap w)).
    { unfold unsubscribe, get in E. munfold. cbn in E. by injection E as <-. }
    intros r s1 Hr Hin. rewrite Hh in Hr.
    destruct (decide (r = Signal.target u)) as [->|Hne].
    + rewrite lookup_alter_eq in Hr.
      destruct (heap w !! Signal.target u) as [s|] eqn:Hs; [|done].
      cbn in Hr. injection Hr as <-.
      unfold Signal.unsubscribe in Hin. cbn [Signal.listeners] in Hin.
      rewrite JSSetFacts.values_delete in Hin. apply list_elem_of_filter in Hin as [Hl Hin].
      specialize (Hc _ _ Hs Hin). apply elem_of_cons in Hc as [Hc|Hc]; [|done].
      destruct u as [t l']. cbn in *. congruence.
    + rewrite lookup_alter_ne in Hr by done.
      specialize (Hc _ _ Hr Hin). apply elem_of_cons in Hc as [Hc|Hc]; [|done].
      destruct u as [t l']. cbn in *. congruence.
Qed.

Lemma holding_unsubscribed (l : Listener) (v : Value) : ¬ subscribed l (Scenario.holding v).
Proof.
  intros (r & s & Hr & Hin). unfold Scenario.holding, dollar_signal, createSignal, get in Hr.
  munfold. cbn in Hr. rewrite lookup_empty in Hr. cbn in Hr.
  apply lookup_insert_Some in Hr as [[_ <-]|[_ Hr]].
  - cbn in Hin. by apply elem_of_nil in Hin.
  - by rewrite lookup_empty in Hr.
Qed.

Lemma mapM_tracking {A B : Type} l (f : A → M B) :
  (∀ x w, tracking l w → tracking l (f x w).2) →
  ∀ xs w, tracking l w → tracking l (mapM f xs w).2.
Proof.
  intros Hf xs. induction xs as [|x xs IH]; intros w Hw; cbn [mapM]; munfold; [done|].
  pose proof (Hf x w Hw) as H1. destruct (f x w) as [y w1].
  pose proof (IH w1 H1) as H2. by destruct (mapM f xs w1) as [ys w2].
Qed.

End TrackingFacts.

(** ** Callbacks that create structural primitives *)

Module NestedFacts.
Import TrackingFacts.

Lemma run_embed {A : Type} (c : Code A) (w : Instance) : Nested.run (embed c) w = run c w.
Proof.
  revert w. induction c as [a|signal k IH|k IH|initialValue k IH|effect k IH];
    intros w; cbn [embed Nested.run run]; munfold.
  - done.
  - destruct (signal_read signal w) as [v w1]. apply IH.
  - destruct (createId w) as [v w1]. apply IH.
  - destruct (dollar_signal initialValue w) as [v w1]. apply IH.
  - destruct (dollar_mount effect w) as [v w1]. apply IH.
Qed.

Lemma flat_embed {A : Type} (c : Code A) : Nested.flat (embed c).
Proof. induction c; cbn [embed]; constructor; auto. Qed.

(** *** Agreement with [$bind], [$if] and [$for] of the instance *)

Lemma dollar_bind_embed (renderFn : Code Component) (w : Instance) :
  (Nested.dollar_bind (embed renderFn) w).2 = (Bind.dollar_bind renderFn w).2 ∧
  Nested.self (Nested.dollar_bind (embed renderFn) w).1
    = Bind.self (Bind.dollar_bind renderFn w).1 ∧
  head (Nested.held (Nested.dollar_bind (embed renderFn) w).1)
    = Bind.component (Bind.dollar_bind renderFn w).1 ∧
  Nested.unsubscribers (Nested.dollar_bind (embed renderFn) w).1
    = Bind.unsubscribers (Bind.dollar_bind renderFn w).1.
Proof.
  unfold Nested.dollar_bind, Nested.bind_with, Bind.dollar_bind, Bind.call_renderFn,
    call_render, set_currentListener, set_unsubscribers, createId, get. munfold. cbn.
  rewrite run_embed. by destruct (run renderFn _) as [c w1].
Qed.

Lemma dollar_if_embed (condition : Code bool) whenTrue whenFalse (w : Instance) :
  (Nested.dollar_if (embed condition) whenTrue whenFalse w).2
    = (If.dollar_if condition whenTrue whenFalse w).2 ∧
  Nested.self (Nested.dollar_if (embed condition) whenTrue whenFalse w).1
    = If.self (If.dollar_if condition whenTrue whenFalse w).1 ∧
  head (Nested.held (Nested.dollar_if (embed condition) whenTrue whenFalse w).1)
    = If.component (If.dollar_if condition whenTrue whenFalse w).1 ∧
  Nested.unsubscribers (Nested.dollar_if (embed condition) whenTrue whenFalse w).1
    = If.unsubscribers (If.dollar_if condition whenTrue whenFalse w).1.
Proof.
  unfold Nested.dollar_if, Nested.if_with, If.dollar_if, If.rerender, If.call_condition,
    set_currentListener, set_unsubscribers, createId, get. munfold. cbn.
  rewrite run_embed. destruct (run condition _) as [b w1].
  destruct b; cbn; [done|]. destruct whenFalse; cbn; [done|].
  unfold createEmptyComponent, createId, get. munfold. by cbn.
Qed.

Lemma mapM_ext {A B : Type} (f g : A → M B) :
  (∀ x w, f x w = g x w) → ∀ xs w, mapM f xs w = mapM g xs w.
Proof.
  intros Hfg xs. induction xs as [|x xs IH]; intros w; cbn [mapM]; munfold; [done|].
  rewrite Hfg. destruct (g x w) as [y w1]. by rewrite IH.
Qed.

Lemma dollar_for_embed (items : Code (list Value)) (renderItem : Value → Code Component)
  (w : Instance) :
  (Nested.dollar_for (embed items) (λ item, embed (renderItem item)) w).2
    = (For.dollar_for items renderItem w).2 ∧
  Nested.self (Nested.dollar_for (embed items) (λ item, embed (renderItem item)) w).1
    = For.self (For.dollar_for items renderItem w).1 ∧
  Nested.held (Nested.dollar_for (embed items) (λ item, embed (renderItem item)) w).1
    = For.components (For.dollar_for items renderItem w).1 ∧
  Nested.unsubscribers (Nested.dollar_for (embed items) (λ item, embed (renderItem item)) w).1
    = For.unsubscribers (For.dollar_for items renderItem w).1.
Proof.
  unfold Nested.dollar_for, Nested.for_with, For.dollar_for, For.rerender, For.newComponents,
    set_currentListener, set_unsubscribers, createId, get. munfold. cbn.
  rewrite run_embed. destruct (run items _) as [array w1].
  rewrite (mapM_ext _ (λ item w2, let '(_, w') := record (RenderItem (nextId w) item) w2 in
                                  run (renderItem item) w')).
  2: { intros x w2. cbn. apply run_embed. }
  destruct (mapM _ array w1) as [cs w2].
  destruct cs as [|c cs]; cbn; unfold createEmptyComponent, createId, get; munfold; by cbn.
Qed.

(** *** Callbacks that create no primitive *)

Lemma run_flat_tracking {A : Type} l (c : Nested.Code A) :
  Nested.flat c → ∀ w, tracking l w → tracking l (Nested.run c w).2.
Proof.
  induction 1 as [a|signal k _ IH|k _ IH|initialValue k _ IH|effect k _ IH];
    intros w Hw; cbn [Nested.run]; munfold.
  - done.
  - pose proof (signal_read_tracking l signal w Hw) as Hs.
    destruct (signal_read signal w) as [v w1]. by apply IH.
  - assert (Hs : tracking l (createId w).2) by exact Hw.
    destruct (createId w) as [v w1]. by apply IH.
  - pose proof (dollar_signal_tracking l initialValue w Hw) as Hs.
    destruct (dollar_signal initialValue w) as [v w1]. by apply IH.
  - pose proof (dollar_mount_tracking l effect w Hw) as Hs.
    destruct (dollar_mount effect w) as [v w1]. by apply IH.
Qed.

Lemma dollar_bind_covered renderFn w :
  Nested.flat renderFn →
  ¬ subscribed (Fn (nextId w)) w →
  Nested.self (Nested.dollar_bind renderFn w).1 = nextId w ∧
  covered (Fn (nextId w)) (Nested.unsubscribers (Nested.dollar_bind renderFn w).1)
          (Nested.dollar_bind renderFn w).2.
Proof.
  intros Hflat Hfresh.
  unfold Nested.dollar_bind, Nested.bind_with, call_render, set_currentListener,
    set_unsubscribers, createId, get. munfold. cbn.
  set (w0 := mkInstance _ _ _ _ _ _ _ _ _ _).
  assert (H0 : tracking (Fn (nextId w)) w0).
  { split; [done|]. intros r s Hr Hin. destruct Hfresh. by exists r, s. }
  pose proof (run_flat_tracking _ renderFn Hflat w0 H0) as [_ Hc].
  destruct (Nested.run renderFn w0) as [c w1]. cbn. split; [done|]. exact Hc.
Qed.

Lemma dollar_if_covered condition whenTrue whenFalse w :
  Nested.flat condition →
  ¬ subscribed (Fn (nextId w)) w →
  covered (Fn (nextId w))
          (Nested.unsubscribers (Nested.dollar_if condition whenTrue whenFalse w).1)
          (Nested.dollar_if condition whenTrue whenFalse w).2.
Proof.
  intros Hflat Hfresh.
  unfold Nested.dollar_if, Nested.if_with, set_currentListener,
    set_unsubscribers, createId, get. munfold. cbn.
  set (w0 := mkInstance _ _ _ _ _ _ _ _ _ _).
  assert (H0 : tracking (Fn (nextId w)) w0).
  { split; [done|]. intros r s Hr Hin. destruct Hfresh. by exists r, s. }
  pose proof (run_flat_tracking _ condition Hflat w0 H0) as Hc.
  destruct (Nested.run condition w0) as [b w1].
  destruct b; [by destruct Hc|].
  destruct whenFalse as [f|]; cbn; [by destruct Hc|].
  unfold createEmptyComponent, createId, get. munfold. cbn. by destruct Hc.
Qed.

Lemma dollar_for_covered items renderItem w :
  Nested.flat items → (∀ item, Nested.flat (renderItem item)) →
  ¬ subscribed (Fn (nextId w)) w →
  covered (Fn (nextId w)) (Nested.unsubscribers (Nested.dollar_for items renderItem w).1)
          (Nested.dollar_for items renderItem w).2.
Proof.
  intros Hflat Hitem Hfresh.
  unfold Nested.dollar_for, Nested.for_with, set_currentListener,
    set_unsubscribers, createId, get. munfold. cbn.
  set (w0 := mkInstance _ _ _ _ _ _ _ _ _ _).
  assert (H0 : tracking (Fn (nextId w)) w0).
  { split; [done|]. intros r s Hr Hin. destruct Hfresh. by exists r, s. }
  pose proof (run_flat_tracking _ items Hflat w0 H0) as Hc.
  destruct (Nested.run items w0) as [array w1].
  assert (Hm : tracking (Fn (nextId w))
    (mapM (λ item w2, let '(_, w') := record (RenderItem (nextId w) item) w2 in
                      Nested.run (renderItem item) w') array w1).2).
  { apply mapM_tracking; [|done]. intros x w2 Hw2. cbn. by apply run_flat_tracking. }
  destruct (mapM _ array w1) as [cs w2]. cbn [snd] in Hm.
  destruct cs as [|c cs]; cbn; unfold createEmptyComponent, createId, get; munfold; cbn;
    by destruct Hm.
Qed.

Lemma destroy_unsubscribes l (o : Nested.Kept) (w' : Instance) :
  covered l (Nested.unsubscribers o) w' → ¬ subscribed l (Nested.destroy o w').2.
Proof.
  intros Hc. unfold Nested.destroy. munfold.
  pose proof (forEach_unsubscribe _ _ w' Hc) as Hn.
  destruct (forEach unsubscribe _ w') as [[] w2].
  rewrite DollarFacts.forEach_record. cbn.
  intros (r & s & Hr & Hin). apply Hn. by exists r, s.
Qed.

(** X17. A [$bind] whose callback creates no structural primitive keeps
    unsubscribers that cover every subscription the callback made for its
    [rerender] listener; [destroy], in any state in which they still do,
    leaves that listener subscribed to no signal. *)
Theorem bind_destroy_unsubscribes (renderFn : Nested.Code Component) (w : Instance) :
  Nested.flat renderFn →
  ¬ subscribed (Fn (nextId w)) w →
  Nested.self (Nested.dollar_bind renderFn w).1 = nextId w ∧
  covered (Fn (nextId w)) (Nested.unsubscribers (Nested.dollar_bind renderFn w).1)
          (Nested.dollar_bind renderFn w).2 ∧
  ∀ w', covered (Fn (nextId w)) (Nested.unsubscribers (Nested.dollar_bind renderFn w).1) w' →
        ¬ subscribed (Fn (nextId w))
            (Nested.destroy (Nested.dollar_bind renderFn w).1 w').2.
Proof.
  intros Hflat Hfresh. destruct (dollar_bind_covered renderFn w Hflat Hfresh) as [Hself Hcov].
  split; [done|]. split; [done|]. intros w'. apply destroy_unsubscribes.
Qed.

Lemma bind_destroy_unsubscribes_witness :
  Nested.flat (embed Scenario.greeting) ∧
  ¬ subscribed (Fn (nextId (Scenario.holding (VNumber 1)))) (Scenario.holding (VNumber 1)) ∧
  Nested.self (Nested.dollar_bind (embed Scenario.greeting) (Scenario.holding (VNumber 1))).1
    = nextId (Scenario.holding (VNumber 1)) ∧
  covered (Fn (nextId (Scenario.holding (VNumber 1))))
    (Nested.unsubscribers
       (Nested.dollar_bind (embed Scenario.greeting) (Scenario.holding (VNumber 1))).1)
    (Nested.dollar_bind (embed Scenario.greeting) (Scenario.holding (VNumber 1))).2 ∧
  ∀ w', covered (Fn (nextId (Scenario.holding (VNumber 1))))
          (Nested.unsubscribers
             (Nested.dollar_bind (embed Scenario.greeting) (Scenario.holding (VNumber 1))).1)
          w' →
        ¬ subscribed (Fn (nextId (Scenario.holding (VNumber 1))))
            (Nested.destroy
               (Nested.dollar_bind (embed Scenario.greeting) (Scenario.holding (VNumber 1))).1
               w').2.
Proof.
  assert (H0 : Nested.flat (embed Scenario.greeting)) by apply flat_embed.
  assert (H : ¬ subscribed (Fn (nextId (Scenario.holding (VNumber 1))))
                (Scenario.holding (VNumber 1))) by apply holding_unsubscribed.
  split; [exact H0|]. split; [exact H|].
  exact (bind_destroy_unsubscribes (embed Scenario.greeting) (Scenario.holding (VNumber 1))
           H0 H).
Defined.

(** X18. The same for [$if] and [$for] whose callbacks create no structural
    primitive: the kept unsubscribers cover every subscription of the
    [rerender] listener, and after [destroy] the listener is subscribed to no
    signal. *)
Theorem if_for_destroy_unsubscribe (w : Instance) :
  ¬ subscribed (Fn (nextId w)) w →
  (∀ condition whenTrue whenFalse w',
     Nested.flat condition →
     let o := (Nested.dollar_if condition whenTrue whenFalse w).1 in
     covered (Fn (nextId w)) (Nested.unsubscribers o)
             (Nested.dollar_if condition whenTrue whenFalse w).2 ∧
     (covered (Fn (nextId w)) (Nested.unsubscribers o) w' →
      ¬ subscribed (Fn (nextId w)) (Nested.destroy o w').2)) ∧
  (∀ items renderItem w',
     Nested.flat items → (∀ item, Nested.flat (renderItem item)) →
     let o := (Nested.dollar_for items renderItem w).1 in
     covered (Fn (nextId w)) (Nested.unsubscribers o) (Nested.dollar_for items renderItem w).2 ∧
     (covered (Fn (nextId w)) (Nested.unsubscribers o) w' →
      ¬ subscribed (Fn (nextId w)) (Nested.destroy o w').2)).
Proof.
  intros Hfresh. split.
  - intros condition whenTrue whenFalse w' Hflat o.
    split; [by apply dollar_if_covered|]. apply destroy_unsubscribes.
  - intros items renderItem w' Hflat Hitem o.
    split; [by apply dollar_for_covered|]. apply destroy_unsubscribes.
Qed.

Lemma if_for_destroy_unsubscribe_witness :
  ¬ subscribed (Fn (nextId (Scenario.holding (VRef 1)))) (Scenario.holding (VRef 1)) ∧
  Nested.flat (embed Scenario.array_signal) ∧
  (∀ item, Nested.flat (embed (Scenario.li item))) ∧
  covered (Fn (nextId (Scenario.holding (VRef 1))))
    (Nested.unsubscribers
       (Nested.dollar_for (embed Scenario.array_signal) (λ item, embed (Scenario.li item))
          (Scenario.holding (VRef 1))).1)
    (Nested.dollar_for (embed Scenario.array_signal) (λ item, embed (Scenario.li item))
       (Scenario.holding (VRef 1))).2 ∧
  ¬ subscribed (Fn (nextId (Scenario.holding (VRef 1))))
      (Nested.destroy
         (Nested.dollar_for (embed Scenario.array_signal) (λ item, embed (Scenario.li item))
            (Scenario.holding (VRef 1))).1
         (Nested.dollar_for (embed Scenario.array_signal) (λ item, embed (Scenario.li item))
            (Scenario.holding (VRef 1))).2).2.
Proof.
  assert (H : ¬ subscribed (Fn (nextId (Scenario.holding (VRef 1))))
                (Scenario.holding (VRef 1))) by apply holding_unsubscribed.
  assert (H1 : Nested.flat (embed Scenario.array_signal)) by apply flat_embed.
  assert (H2 : ∀ item, Nested.flat (embed (Scenario.li item)))
    by (intros item; apply flat_embed).
  split; [exact H|]. split; [exact H1|]. split; [exact H2|].
  destruct (proj2 (if_for_destroy_unsubscribe (Scenario.holding (VRef 1)) H)
              (embed Scenario.array_signal) (λ item, embed (Scenario.li item))
              (Nested.dollar_for (embed Scenario.array_signal)
                 (λ item, embed (Scenario.li item)) (Scenario.holding (VRef 1))).2
              H1 H2) as [H3 H4].
  split; [exact H3|]. exact (H4 H3).
Defined.

(** *** Callbacks that create a primitive *)














(** *** Subscriptions outlive the callback *)














End NestedFacts.


(** ** [$bind] and [$if], further *)

Module StructuralMore.
Import StructuralFacts.

Lemma run_nextId {A} (c : Code A) w : nextId w ≤ nextId (run c w).2.
Proof.
  revert w. induction c as [a|signal k IH|k IH|initialValue k IH|effect k IH]; intros w; cbn [run].
  - done.
  - munfold. assert (Hs : nextId (signal_read signal w).2 = nextId w).
    { unfold signal_read, get. munfold. cbn. destruct (heap w !! signal); [|done].
      by destruct (Signal.read _ _ _) as [[? ?] ?]. }
    destruct (signal_read signal w) as [v w1]. cbn [snd] in Hs. rewrite <- Hs. apply IH.
  - munfold. unfold createId, get. munfold. cbn.
    etrans; [|apply IH]. cbn. lia.
  - munfold. assert (Hs : nextId (dollar_signal initialValue w).2 = nextId w).
    { unfold dollar_signal, createSignal, get. munfold. cbn.
      by destruct (signals w !! signalIndex w). }
    destruct (dollar_signal initialValue w) as [v w1]. cbn [snd] in Hs. rewrite <- Hs. apply IH.
  - munfold. assert (Hs : nextId (dollar_mount effect w).2 = nextId w).
    { unfold dollar_mount, get. munfold. cbn. destruct (hasRendered w); cbn; [done|].
      by destruct (cleanup effect). }
    destruct (dollar_mount effect w) as [v w1]. cbn [snd] in Hs. rewrite <- Hs. apply IH.
Qed.


(** X20. A notification of an [$if] with both branches evaluates the
    condition and yields the branch it selects; when that is the active
    component nothing more happens, otherwise the active component is replaced
    by the selected branch and destroyed, and the branch becomes the active
    one. *)
Theorem if_notification_spec (i : If.If) (w : Instance) (c f : Component) :
  If.component i = Some c → If.whenFalse i = Some f →
  let r := if (If.call_condition i w).1 then If.whenTrue i else f in
  (If.rerender i w).1.2 = r ∧
  If.component (If.rerender i w).1.1 = Some (if same c r then c else r) ∧
  calls_since (If.call_condition i w).2 (If.rerender i w).2
    = (if same c r then [] else [Replace c r; Destroy c]).
Proof.
  intros Hc Hf r. subst r. unfold If.rerender. munfold.
  destruct (If.call_condition i w) as [b w1]. cbn [fst snd].
  rewrite Hf, Hc.
  destruct b; cbn [mret M_ret].
  - destruct (same c (If.whenTrue i)) eqn:Hs; cbn.
    + split; [done|]. split; [done|]. apply calls_since_app. by rewrite app_nil_r.
    + split; [done|]. split; [done|]. apply calls_since_app. by rewrite <- app_assoc.
  - destruct (same c f) eqn:Hs; cbn.
    + split; [done|]. split; [done|]. apply calls_since_app. by rewrite app_nil_r.
    + split; [done|]. split; [done|]. apply calls_since_app. by rewrite <- app_assoc.
Qed.

Lemma if_notification_spec_witness :
  If.component either.1 = Some (Intrinsic 2 "span") ∧
  If.whenFalse either.1 = Some (Intrinsic 2 "span") ∧
  let r := if (If.call_condition either.1 either_changed).1
           then If.whenTrue either.1 else Intrinsic 2 "span" in
  (If.rerender either.1 either_changed).1.2 = r ∧
  If.component (If.rerender either.1 either_changed).1.1
    = Some (if same (Intrinsic 2 "span") r then Intrinsic 2 "span" else r) ∧
  calls_since (If.call_condition either.1 either_changed).2
              (If.rerender either.1 either_changed).2
    = (if same (Intrinsic 2 "span") r then []
       else [Replace (Intrinsic 2 "span") r; Destroy (Intrinsic 2 "span")]).
Proof.
  assert (H1 : If.component either.1 = Some (Intrinsic 2 "span")) by (vm_compute; reflexivity).
  assert (H2 : If.whenFalse either.1 = Some (Intrinsic 2 "span")) by (vm_compute; reflexivity).
  split; [exact H1|]. split; [exact H2|].
  exact (if_notification_spec either.1 either_changed (Intrinsic 2 "span")
           (Intrinsic 2 "span") H1 H2).
Defined.

(** X21. An [$if] without a false branch whose condition is false makes a
    new placeholder on every notification: whatever the active component is
    (the placeholder of the notification before included), it is replaced by
    the new placeholder and destroyed. *)
Theorem if_false_without_branch (i : If.If) (w : Instance) (c : Component) :
  If.component i = Some c → If.whenFalse i = None →
  id_of c < nextId w →
  (If.call_condition i w).1 = false →
  let e := Empty (nextId (If.call_condition i w).2) in
  same c e = false ∧
  If.component (If.rerender i w).1.1 = Some e ∧
  calls_since (If.call_condition i w).2 (If.rerender i w).2 = [Replace c e; Destroy c] ∧
  id_of e < nextId (If.rerender i w).2.
Proof.
  intros Hc Hf Hid Hb e. subst e.
  assert (Hn : nextId w ≤ nextId (If.call_condition i w).2).
  { unfold If.call_condition, record. munfold.
    exact (run_nextId (If.condition i) (add_calls [Condition (If.self i)] w)). }
  unfold If.rerender. munfold.
  destruct (If.call_condition i w) as [b w1]. cbn [fst snd] in *. subst b.
  rewrite Hf, Hc. unfold createEmptyComponent, createId, get. munfold. cbn.
  assert (Hs : same c (Empty (nextId w1)) = false).
  { unfold same. apply bool_decide_eq_false_2. cbn. lia. }
  rewrite Hs. cbn. split; [done|]. split; [done|]. split; [|lia].
  apply calls_since_app. cbn. by rewrite <- app_assoc.
Qed.

Lemma if_false_without_branch_witness :
  If.component Scenario.spinner.1 = Some (Empty 2) ∧
  If.whenFalse Scenario.spinner.1 = None ∧
  id_of (Empty 2) < nextId Scenario.spinner.2 ∧
  (If.call_condition Scenario.spinner.1 Scenario.spinner.2).1 = false ∧
  let e := Empty (nextId (If.call_condition Scenario.spinner.1 Scenario.spinner.2).2) in
  same (Empty 2) e = false ∧
  If.component (If.rerender Scenario.spinner.1 Scenario.spinner.2).1.1 = Some e ∧
  calls_since (If.call_condition Scenario.spinner.1 Scenario.spinner.2).2
              (If.rerender Scenario.spinner.1 Scenario.spinner.2).2
    = [Replace (Empty 2) e; Destroy (Empty 2)] ∧
  id_of e < nextId (If.rerender Scenario.spinner.1 Scenario.spinner.2).2.
Proof.
  assert (H1 : If.component Scenario.spinner.1 = Some (Empty 2)) by (vm_compute; reflexivity).
  assert (H2 : If.whenFalse Scenario.spinner.1 = None) by (vm_compute; reflexivity).
  assert (H3 : id_of (Empty 2) < nextId Scenario.spinner.2) by (vm_compute; lia).
  assert (H4 : (If.call_condition Scenario.spinner.1 Scenario.spinner.2).1 = false)
    by (vm_compute; reflexivity).
  split; [exact H1|]. split; [exact H2|]. split; [exact H3|]. split; [exact H4|].
  exact (if_false_without_branch Scenario.spinner.1 Scenario.spinner.2 (Empty 2) H1 H2 H3 H4).
Defined.

End StructuralMore.

(** ** Reads and subscriptions of a signal *)

Module SignalRead.
Import Signal.

Lemma add_again (l : Listener) (s : list (option Listener)) :
  JSSet.add l (JSSet.add l s) = JSSet.add l s.
Proof.
  unfold JSSet.add at 1. unfold JSSet.has.
  rewrite bool_decide_eq_true_2; [done|].
  apply JSSetFacts.elem_of_values, JSSetFacts.elem_of_add.
Qed.

(** X22. Two reads of a signal under the same current listener leave the
    listener in the set once, as the first read did, but push two
    unsubscribers on the context; both reads return the stored value. *)
Theorem read_again_same_set (self : nat) (context : SignalContext) (s : Signal)
  (l : Listener) :
  currentListener context = Some l →
  let r1 := read self context s in
  let r2 := read self r1.1.2 r1.2 in
  listeners r2.2 = listeners r1.2 ∧
  r2.1.1 = value s ∧
  unsubscribers r2.1.2
    = unsubscribers context ++ [mkUnsubscriber self l; mkUnsubscriber self l].
Proof.
  intros Hl. unfold read. rewrite Hl. cbn.
  rewrite add_again. by rewrite <- app_assoc.
Qed.

Lemma read_again_same_set_witness :
  currentListener (mkSignalContext (Some (Fn 1)) []) = Some (Fn 1) ∧
  let r1 := read 0 (mkSignalContext (Some (Fn 1)) []) (signalFactory (VNumber 4)) in
  let r2 := read 0 r1.1.2 r1.2 in
  listeners r2.2 = listeners r1.2 ∧
  r2.1.1 = value (signalFactory (VNumber 4)) ∧
  unsubscribers r2.1.2
    = unsubscribers (mkSignalContext (Some (Fn 1)) [])
      ++ [mkUnsubscriber 0 (Fn 1); mkUnsubscriber 0 (Fn 1)].
Proof.
  split; [reflexivity|].
  exact (read_again_same_set 0 (mkSignalContext (Some (Fn 1)) []) (signalFactory (VNumber 4))
           (Fn 1) eq_refl).
Defined.

(** X23. Calling the closure returned by [subscribe(l)] leaves every other
    listener subscribed, in the same order, and [l] unsubscribed, also when
    [l] had been subscribed before that [subscribe]. *)
Theorem subscribe_then_cancel (self : nat) (l : Listener) (s : Signal) :
  let u := (subscribe self l s).1 in
  let s' := unsubscribe (listener u) (subscribe self l s).2 in
  target u = self ∧
  JSSet.values (listeners s') = filter (λ y, y ≠ l) (JSSet.values (listeners s)) ∧
  (l ∉ JSSet.values (listeners s')) ∧
  value s' = value s.
Proof.
  cbn zeta. unfold subscribe, unsubscribe. cbn [fst snd target listener listeners value].
  split; [done|]. split; [|split; [apply JSSetFacts.not_elem_of_delete|done]].
  rewrite JSSetFacts.values_delete. unfold JSSet.add, JSSet.has.
  case_bool_decide as Hx; [done|].
  rewrite JSSetFacts.values_app, filter_app.
  change (JSSet.values [Some l]) with [l].
  rewrite filter_cons_False by (intros H; by apply H).
  by rewrite filter_nil, app_nil_r.
Qed.

End SignalRead.

(** ** Methods of the [$for] object and of an instance *)

Module MethodsMore.
Import StructuralFacts.

Lemma dollar_for_nonempty items renderItem w :
  For.components (For.dollar_for items renderItem w).1 ≠ [].
Proof.
  unfold For.dollar_for, set_currentListener, set_unsubscribers, createId, get.
  munfold. cbn.
  destruct (For.rerender _ _) as [[f cs] w1].
  destruct cs; cbn; unfold createEmptyComponent, createId, get; munfold; cbn; done.
Qed.

Lemma mapM_call_render (cs : list Component) (w : Instance) :
  length (mapM call_render cs w).1 = length cs ∧
  trace (mapM call_render cs w).2 = trace w ++ (Render <$> cs).
Proof.
  revert w. induction cs as [|c cs IH]; intros w; cbn [mapM]; munfold.
  - cbn. by rewrite app_nil_r.
  - unfold call_render at 1 3. unfold createId, get, record. munfold. cbn.
    set (w1 := mkInstance _ _ _ _ _ _ _ _ _ _).
    destruct (IH w1) as [Hlen Ht]. destruct (mapM call_render cs w1) as [ns w2].
    cbn in *. split; [by rewrite Hlen|]. rewrite Ht. by rewrite <- app_assoc.
Qed.

Lemma rerender_nonempty (f : For.For) (w : Instance) :
  For.components (For.rerender f w).1.1 ≠ [].
Proof.
  unfold For.rerender. munfold.
  destruct (For.newComponents f w) as [new w1].
  destruct (if 0 <? length (For.components f) then _ else _) as [cs w2].
  destruct cs; cbn; unfold createEmptyComponent, createId, get; munfold; cbn; done.
Qed.

Lemma render_full (f : For.For) (w : Instance) :
  For.components f ≠ [] →
  (For.render f w).1.1 = f ∧
  length (For.render f w).1.2 = length (For.components f) ∧
  calls_since w (For.render f w).2 = (Render <$> For.components f).
Proof.
  intros Hne. destruct f as [self its rI cs us].
  cbn [For.components] in *. unfold For.render. cbn [For.components For.self For.items
    For.renderItem For.unsubscribers].
  destruct cs as [|c cs]; [done|]. cbn [length Nat.eqb]. munfold.
  destruct (mapM_call_render (c :: cs) w) as [Hlen Ht].
  destruct (mapM call_render (c :: cs) w) as [ns w2]. cbn [fst snd] in *.
  split; [done|]. split; [done|]. by apply calls_since_app.
Qed.

Lemma later_nonempty items renderItem w f' :
  ForSpec.later (For.dollar_for items renderItem w).1 f' → For.components f' ≠ [].
Proof.
  induction 1 as [|f' w' _ _|f' w' _ IH].
  - apply dollar_for_nonempty.
  - apply rerender_nonempty.
  - by rewrite (proj1 (render_full f' w' IH)).
Qed.

(** X24. The list of a [$for] object is never empty when [render()] is
    called on it, at its creation or after any notifications and renders, so
    [render()] makes no placeholder: it calls [render()] on every entry, in
    order, puts one node per entry in the fragment and leaves the list as it
    is. *)
Theorem for_render_one_node_each (items : Code (list Value))
  (renderItem : Value → Code Component) (w w' : Instance) (f' : For.For) :
  ForSpec.later (For.dollar_for items renderItem w).1 f' →
  For.components f' ≠ [] ∧
  (For.render f' w').1.1 = f' ∧
  length (For.render f' w').1.2 = length (For.components f') ∧
  calls_since w' (For.render f' w').2 = (Render <$> For.components f').
Proof.
  intros Hl. pose proof (later_nonempty items renderItem w f' Hl) as Hne.
  split; [done|]. by apply render_full.
Qed.

(** The list of [li] elements after the notification that empties it. *)
Lemma for_render_one_node_each_witness :
  ForSpec.later Scenario.li_list.1
    (For.rerender Scenario.li_list.1 (Scenario.store 0 (VRef 0) Scenario.li_list.2).2).1.1 ∧
  For.components
    (For.rerender Scenario.li_list.1 (Scenario.store 0 (VRef 0) Scenario.li_list.2).2).1.1 ≠ [] ∧
  (For.render
     (For.rerender Scenario.li_list.1 (Scenario.store 0 (VRef 0) Scenario.li_list.2).2).1.1
     (instantiate None)).1.1
  = (For.rerender Scenario.li_list.1 (Scenario.store 0 (VRef 0) Scenario.li_list.2).2).1.1 ∧
  length (For.render
     (For.rerender Scenario.li_list.1 (Scenario.store 0 (VRef 0) Scenario.li_list.2).2).1.1
     (instantiate None)).1.2
  = length (For.components
     (For.rerender Scenario.li_list.1 (Scenario.store 0 (VRef 0) Scenario.li_list.2).2).1.1) ∧
  calls_since (instantiate None) (For.render
     (For.rerender Scenario.li_list.1 (Scenario.store 0 (VRef 0) Scenario.li_list.2).2).1.1
     (instantiate None)).2
  = (Render <$> For.components
     (For.rerender Scenario.li_list.1 (Scenario.store 0 (VRef 0) Scenario.li_list.2).2).1.1).
Proof.
  assert (H : ForSpec.later Scenario.li_list.1
    (For.rerender Scenario.li_list.1 (Scenario.store 0 (VRef 0) Scenario.li_list.2).2).1.1).
  { apply ForSpec.later_rerender, ForSpec.later_now. }
  split; [exact H|].
  exact (for_render_one_node_each Scenario.array_signal Scenario.li
           (Scenario.holding (VRef 1)) (instantiate None) _ H).
Defined.

(** X25. On an instance that holds no rendered node, [replace] and [append]
    still call [render()] on the new component, but put its node nowhere;
    [replace] then runs the cleanups. *)
Theorem replace_append_before_render (parentElement : nat → option nat)
  (newComponent : Component) (w : Instance) :
  lastRenderResult w = None →
  calls_since w (Dollar.replace newComponent w).2
    = Render newComponent :: (Unmount <$> JSSet.values (unmounts w)) ∧
  calls_since w (Dollar.append parentElement newComponent w).2 = [Render newComponent].
Proof.
  intros Hl. split.
  - unfold Dollar.replace, call_render, createId, get. munfold. cbn. rewrite Hl. cbn.
    rewrite DollarMore.onDestroy_unfold. cbn. rewrite ?Hl. cbn.
    apply calls_since_app. unfold add_calls. cbn [trace]. by rewrite <- app_assoc.
  - unfold Dollar.append, call_render, createId, get. munfold. cbn. rewrite Hl. cbn.
    by apply calls_since_app.
Qed.

Lemma replace_append_before_render_witness :
  lastRenderResult (instantiate None) = None ∧
  calls_since (instantiate None) (Dollar.replace (Empty 5) (instantiate None)).2
    = Render (Empty 5) :: (Unmount <$> JSSet.values (unmounts (instantiate None))) ∧
  calls_since (instantiate None) (Dollar.append (λ _, Some 0) (Empty 5) (instantiate None)).2
    = [Render (Empty 5)].
Proof.
  split; [reflexivity|].
  exact (replace_append_before_render (λ _, Some 0) (Empty 5) (instantiate None) eq_refl).
Defined.

End MethodsMore.
